(** * Storage facades of mindsdb: [ModelStorage] and [HandlerStorage]

    A shallow embedding of [mindsdb/interfaces/storage/model_fs.py].

    - Python strings are [string]s of 8-bit characters read as the code points
      0..255 (Latin-1); [str.lower] and the regular expression class are
      written out on that range.  [Unicode] has the name normalization on
      every string of code points, with [str.lower] and [\d] as parameters.
    - Python objects stored in the JSON columns are [pyobj]; a [dict] is a
      [gmap string pyobj].
    - The relational tables, the JSON store, the local folder of the file
      storage and the log of the calls made to the file backend form the
      [world]; every method is a function [world -> result A * world].
    - The local folder is a tree of regular files and directories; a zip
      archive is the list of its members (relative path, content). *)

From stdpp Require Import gmap strings list fin_maps.
From Stdlib Require Import Ascii String.

#[local] Set Warnings "-register-all".
#[local] Open Scope string_scope.
#[local] Open Scope list_scope.

(** ** Python values *)

Inductive pyobj :=
| PNone
| PBool (b : bool)
| PInt (z : Z)
| PStr (s : string)
| PList (l : list pyobj)
| PDict (m : gmap string pyobj).

(** [isinstance(o, dict)] *)
Definition is_dict (o : pyobj) : bool :=
  match o with PDict _ => true | _ => false end.

(** Raw bytes ([bytes] objects, file contents). *)
Abbreviation bytes := (list Byte.byte).

(** ** Name normalization

    [HandlerStorage.__convert_name], and the same two lines written inline in
    [ModelStorage.folder_get] and [ModelStorage.folder_sync]:
<<
    name = name.lower().replace(' ', '_')
    return re.sub(r'([^a-z^A-Z^_\d]+)', '_', name)
>> *)

Module Name.

(** Code point of a character. *)
Definition code (c : ascii) : N := N_of_ascii c.

Definition between (lo hi : N) (c : ascii) : bool :=
  (lo <=? code c)%N && (code c <=? hi)%N.

(** Characters with a lowercase mapping below code point 256: [A-Z], and the
    Latin-1 capitals U+00C0..U+00DE except the multiplication sign U+00D7. *)
Definition has_lower (c : ascii) : bool :=
  between 65 90 c || (between 192 222 c && negb (code c =? 215)%N).

Definition lower_char (c : ascii) : ascii :=
  if has_lower c then ascii_of_N (code c + 32) else c.

(** [str.lower()] *)
Fixpoint lower (s : string) : string :=
  match s with
  | EmptyString => EmptyString
  | String c s' => String (lower_char c) (lower s')
  end.

(** [str.replace(' ', '_')] *)
Fixpoint replace_space (s : string) : string :=
  match s with
  | EmptyString => EmptyString
  | String c s' =>
      String (if Ascii.eqb c " " then "_"%char else c) (replace_space s')
  end.

(** The characters listed after the leading [^] of the class
    [[^a-z^A-Z^_\d]]: [a-z], a literal [^], [A-Z], a literal [^] again, [_]
    and the decimal digits.  The class matches every other character. *)
Definition listed (c : ascii) : bool :=
  between 97 122 c          (* a-z *)
  || Ascii.eqb c "^"        (* ^   *)
  || between 65 90 c        (* A-Z *)
  || Ascii.eqb c "^"        (* ^   *)
  || Ascii.eqb c "_"        (* _   *)
  || between 48 57 c.       (* \d  *)

(** [re.sub(r'([^a-z^A-Z^_\d]+)', '_', s)]: scanning from the left, every
    maximal run of characters the class matches is replaced by one ["_"];
    [in_run] tells that the run the scan is in has already been replaced. *)
Fixpoint re_sub (in_run : bool) (s : string) : string :=
  match s with
  | EmptyString => EmptyString
  | String c s' =>
      if listed c then String c (re_sub false s')
      else if in_run then re_sub true s'
      else String "_" (re_sub true s')
  end.

Definition convert_name (name : string) : string :=
  let name := replace_space (lower name) in
  re_sub false name.

(** Every character of [s] satisfies [p]. *)
Fixpoint all_chars (p : ascii -> bool) (s : string) : bool :=
  match s with
  | EmptyString => true
  | String c s' => p c && all_chars p s'
  end.

(** The alphabet [[a-z0-9_]]. *)
Definition plain (c : ascii) : bool :=
  between 97 122 c || between 48 57 c || Ascii.eqb c "_".

(** A character the normalization leaves alone: listed in the class, fixed by
    [lower], and not a space. *)
Definition stable (c : ascii) : bool :=
  listed c && Ascii.eqb (lower_char c) c && negb (Ascii.eqb c " ").

End Name.


(** ** The local folder of a file storage *)

Module Fs.

(** An entry of the local folder: a regular file with its content, or a
    directory with its entries in listing order. *)
Inductive node :=
| File (content : bytes)
| Dir (entries : list (string * node)).

(** The entries of a directory, as [iterdir] and [os.walk] list them. *)
Abbreviation folder := (list (string * node)).

(** A path relative to the folder of the storage, one component per level. *)
Abbreviation path := (list string).

(** [path.is_file()] *)
Definition is_file (n : node) : bool :=
  match n with File _ => true | Dir _ => false end.

(** The entry called [name] of a directory. *)
Fixpoint find_entry (name : string) (es : folder) : option node :=
  match es with
  | [] => None
  | (n, x) :: rest => if decide (n = name) then Some x else find_entry name rest
  end.

(** Puts [x] under [name]: in place of the entry of that name, or as a new
    entry. *)
Fixpoint set_entry (name : string) (x : node) (es : folder) : folder :=
  match es with
  | [] => [(name, x)]
  | (n, y) :: rest =>
      if decide (n = name) then (name, x) :: rest
      else (n, y) :: set_entry name x rest
  end.

(** What a path leads to, starting at node [n]. *)
Fixpoint resolve (p : path) (n : node) : option node :=
  match p with
  | [] => Some n
  | name :: rest =>
      match n with
      | File _ => None
      | Dir es =>
          match find_entry name es with
          | Some x => resolve rest x
          | None => None
          end
      end
  end.

(** The content of the regular file at [p], if there is one. *)
Definition read_file (p : path) (es : folder) : option bytes :=
  match resolve p (Dir es) with
  | Some (File c) => Some c
  | _ => None
  end.

(** The last component of a path ([os.path.basename]). *)
Definition basename (p : path) : string := List.last p "".

(** Names are unique within every directory: the invariant of a file
    system. *)
Fixpoint wf_node (n : node) : bool :=
  match n with
  | File _ => true
  | Dir es => bool_decide (NoDup es.*1) && forallb (fun e => wf_node e.2) es
  end.

Definition wf (es : folder) : bool := wf_node (Dir es).

(** [os.walk(top)], top down: one triple (root, dirs, files) per directory,
    the directory itself first and then its subdirectories in listing order.
    Roots are kept relative to [top]; a file is listed with its content. *)
Fixpoint os_walk (root : path) (n : node)
  : list (path * list string * list (string * bytes)) :=
  match n with
  | File _ => []
  | Dir es =>
      (root,
       omap (fun e => match e.2 with Dir _ => Some e.1 | File _ => None end) es,
       omap (fun e => match e.2 with File c => Some (e.1, c) | Dir _ => None end) es)
      :: flat_map (fun e => os_walk (root ++ [e.1]) e.2) es
  end.

(** A zip archive: its members in the order they were written, each with the
    name it is stored under, a path relative to the archived folder. *)
Abbreviation archive := (list (path * bytes)).

(** Extraction of one archive member below directory [es]: missing
    directories are created, a file of the same name is overwritten.  [None]
    is the [OSError] raised when a directory of the way is a regular file, or
    when the place of the file is taken by a directory. *)
Fixpoint write_file (p : path) (c : bytes) (es : folder) : option folder :=
  match p with
  | [] => None
  | name :: rest =>
      match rest with
      | [] =>
          match find_entry name es with
          | Some (Dir _) => None
          | _ => Some (set_entry name (File c) es)
          end
      | _ :: _ =>
          match find_entry name es with
          | Some (File _) => None
          | Some (Dir sub) =>
              match write_file rest c sub with
              | Some sub' => Some (set_entry name (Dir sub') es)
              | None => None
              end
          | None =>
              match write_file rest c [] with
              | Some sub' => Some (set_entry name (Dir sub') es)
              | None => None
              end
          end
      end
  end.

(** [ZipFile.extractall(target)]: the members are extracted in order below
    the directory at [target].  The flag tells whether every member was
    extracted; the folder is as the last extraction left it.  A member name
    is taken component by component as it is: the components [""], ["."] and
    [".."], which [extractall] drops from a name, are not told apart here. *)
Fixpoint extractall (target : path) (members : archive) (es : folder)
  : bool * folder :=
  match members with
  | [] => (true, es)
  | (p, c) :: rest =>
      match write_file (target ++ p) c es with
      | Some es' => extractall target rest es'
      | None => (false, es)
      end
  end.

End Fs.

(** ** The state the facades work on *)

Module Storage.
Export Fs.

(** Exceptions the methods raise. *)
Inductive exn :=
| KeyError (msg : string)
| AttributeError          (* an attribute of [None] is read or set *)
| TypeError               (* [None] is written where bytes are expected *)
| OSError.                (* a file cannot be created while extracting *)

Inductive result (A : Type) :=
| Ok (a : A)
| Raise (e : exn).
Arguments Ok {A} a.
Arguments Raise {A} e.

(** A row of [db.Predictor]: the columns the facade reads and writes. *)
Module Predictor.
Record t := mk {
  status : pyobj;
  to_predict : pyobj;
  data : pyobj;
  learn_args : pyobj;
  dtype_dict : pyobj;
  training_phase_current : pyobj;
  training_phase_total : pyobj;
  training_phase_name : pyobj;
}.
Definition set_status (v : pyobj) (r : t) : t :=
  mk v (to_predict r) (data r) (learn_args r) (dtype_dict r)
     (training_phase_current r) (training_phase_total r) (training_phase_name r).
Definition set_data (v : pyobj) (r : t) : t :=
  mk (status r) (to_predict r) v (learn_args r) (dtype_dict r)
     (training_phase_current r) (training_phase_total r) (training_phase_name r).
Definition set_learn_args (v : pyobj) (r : t) : t :=
  mk (status r) (to_predict r) (data r) v (dtype_dict r)
     (training_phase_current r) (training_phase_total r) (training_phase_name r).
Definition set_dtype_dict (v : pyobj) (r : t) : t :=
  mk (status r) (to_predict r) (data r) (learn_args r) v
     (training_phase_current r) (training_phase_total r) (training_phase_name r).
Definition set_training_phase_current (v : pyobj) (r : t) : t :=
  mk (status r) (to_predict r) (data r) (learn_args r) (dtype_dict r)
     v (training_phase_total r) (training_phase_name r).
Definition set_training_phase_total (v : pyobj) (r : t) : t :=
  mk (status r) (to_predict r) (data r) (learn_args r) (dtype_dict r)
     (training_phase_current r) v (training_phase_name r).
Definition set_training_phase_name (v : pyobj) (r : t) : t :=
  mk (status r) (to_predict r) (data r) (learn_args r) (dtype_dict r)
     (training_phase_current r) (training_phase_total r) v.
End Predictor.

(** A row of [db.Integration]. *)
Module Integration.
Record t := mk {
  data : pyobj;
}.
Definition set_data (v : pyobj) (r : t) : t := mk v.
End Integration.

(** A call received by the file backend ([self.fileStorage]). *)
Inductive call :=
| PullPath (name : string)
| PushPath (name : string)
| FileGet (name : string)
| FileSet (name : string) (content : bytes).

Definition is_push (c : call) : bool :=
  match c with PushPath _ => true | _ => false end.

(** The state one facade instance works on: the two tables, the values the
    JSON store holds for the instance, the local folder of its file storage
    ([fileStorage.folder_path]) and the calls its file backend has received,
    oldest first. *)
Record world := mk_world {
  predictors : gmap Z Predictor.t;
  integrations : gmap Z Integration.t;
  jsons : gmap string pyobj;
  folder : Fs.folder;
  calls : list call;
}.

Definition with_predictors (v : gmap Z Predictor.t) (w : world) : world :=
  mk_world v (integrations w) (jsons w) (folder w) (calls w).
Definition with_integrations (v : gmap Z Integration.t) (w : world) : world :=
  mk_world (predictors w) v (jsons w) (folder w) (calls w).
Definition with_jsons (v : gmap string pyobj) (w : world) : world :=
  mk_world (predictors w) (integrations w) v (folder w) (calls w).
Definition with_folder (v : Fs.folder) (w : world) : world :=
  mk_world (predictors w) (integrations w) (jsons w) v (calls w).
Definition with_calls (v : list call) (w : world) : world :=
  mk_world (predictors w) (integrations w) (jsons w) (folder w) v.

(** A method: from the state to its outcome and the state it leaves.  What a
    method did before it raised stays done. *)
Definition M (A : Type) : Type := world -> result A * world.

Definition ret {A} (a : A) : M A := fun w => (Ok a, w).
Definition raise {A} (e : exn) : M A := fun w => (Raise e, w).
Definition bind {A B} (m : M A) (k : A -> M B) : M B :=
  fun w => match m w with
           | (Ok a, w') => k a w'
           | (Raise e, w') => (Raise e, w')
           end.
Definition get_world : M world := fun w => (Ok w, w).
Definition modify (f : world -> world) : M unit := fun w => (Ok tt, f w).

#[global] Instance M_ret : MRet M := @ret.
#[global] Instance M_bind : MBind M := fun A B k m => bind m k.

(** *** The file backend and the JSON store *)

(** A call is added to the log of the backend. *)
Definition log (c : call) : M unit :=
  modify (fun w => with_calls (calls w ++ [c]) w).

(** Modelled from the spec: [pullPath(name)] of the File Sync Backend, whose
    class ([fs.py], behind [FileStorageFactory]) is not among the sources.
    The call is logged with the name it received; what is transferred is the
    backend's business (the handler's storage is made with [sync=False]). *)
Definition fs_pull_path (name : string) : M unit := log (PullPath name).

(** Modelled from the spec: [pushPath(name)] of the File Sync Backend, logged
    with the name it received. *)
Definition fs_push_path (name : string) : M unit := log (PushPath name).

(** Modelled from the spec: [getPath(name) -> localPath] of the File Sync
    Backend, that is [folder_path / name], relative to the folder of the
    storage. *)
Definition fs_get_path (name : string) : Fs.path :=
  if decide (name = "") then [] else [name].

(** Modelled from the spec: [fileGet(name) -> bytes|null] of the File Sync
    Backend; logged, it reads the file of that name in the local folder. *)
Definition fs_file_get (name : string) : M (option bytes) :=
  log (FileGet name);;
  w ← get_world;
  mret (read_file [name] (folder w)).

(** Modelled from the spec: [fileSet(name, bytes)] of the File Sync Backend;
    logged, it writes the file of that name in the local folder. *)
Definition fs_file_set (name : string) (content : bytes) : M unit :=
  log (FileSet name content);;
  w ← get_world;
  match write_file [name] content (folder w) with
  | Some es => modify (with_folder es)
  | None => raise OSError
  end.

(** Modelled from the spec: [set(name, data)] of the JSON store ([json.py] is
    not among the sources), on the values [get_json_storage] gives for the
    resource group and id of the instance. *)
Definition json_storage_set (name : string) (data : pyobj) : M pyobj :=
  modify (fun w => with_jsons (<[name := data]> (jsons w)) w);;
  mret PNone.

(** Modelled from the spec: [get(name) -> data] of the JSON store. *)
Definition json_storage_get (name : string) : M pyobj :=
  w ← get_world;
  mret (default PNone (jsons w !! name)).

End Storage.

(** ** [class ModelStorage] *)

Module ModelStorage.
Import Storage.

Record t := mk {
  predictor_id : Z;
}.

(** [_get_model_record]: the row of [self.predictor_id] (the argument
    [model_id] is not read), [KeyError] when it is asked to exist and does
    not. *)
Definition _get_model_record (self : t) (model_id : Z) (check_exists : bool)
  : M (option Predictor.t) :=
  w ← get_world;
  let model_record := predictors w !! predictor_id self in
  if check_exists && bool_decide (model_record = None)
  then raise (KeyError "Model does not exists")
  else mret model_record.

(** [db.session.commit()] after the row was changed into [rec]. *)
Definition commit (self : t) (rec : Predictor.t) : M unit :=
  modify (fun w => with_predictors (<[predictor_id self := rec]> (predictors w)) w).

(** [field.update(data)] on a column holding a [dict]. *)
Definition dict_update (field : pyobj) (data : gmap string pyobj) : pyobj :=
  match field with
  | PDict m => PDict (data ∪ m)
  | other => other
  end.

Definition get_info (self : t) : M pyobj :=
  rec ← _get_model_record self (predictor_id self) false;
  match rec with
  | None => raise AttributeError
  | Some rec =>
      mret (PDict {[ "status" := Predictor.status rec;
                     "to_predict" := Predictor.to_predict rec;
                     "data" := Predictor.data rec ]})
  end.

Definition update_data (self : t) (data : gmap string pyobj) : M unit :=
  model_record ← _get_model_record self (predictor_id self) true;
  match model_record with
  | None => raise AttributeError
  | Some rec =>
      let rec :=
        if negb (is_dict (Predictor.data rec))
        then Predictor.set_data (PDict data) rec
        else Predictor.set_data (dict_update (Predictor.data rec) data) rec in
      commit self rec
  end.

Definition update_learn_args (self : t) (data : gmap string pyobj) : M unit :=
  model_record ← _get_model_record self (predictor_id self) true;
  match model_record with
  | None => raise AttributeError
  | Some rec =>
      let rec :=
        if negb (is_dict (Predictor.learn_args rec))
        then Predictor.set_learn_args (PDict data) rec
        else Predictor.set_learn_args
               (dict_update (Predictor.learn_args rec) data) rec in
      commit self rec
  end.

(** [status_set(status, status_info=None)] *)
Definition status_set (self : t) (status : pyobj) (status_info : pyobj) : M unit :=
  rec ← _get_model_record self (predictor_id self) false;
  match rec with
  | None => raise AttributeError
  | Some rec =>
      let rec := Predictor.set_status status rec in
      let rec :=
        match status_info with
        | PNone => rec
        | _ => Predictor.set_data status_info rec
        end in
      commit self rec
  end.

(** [value if value is not None], as the setters below test it. *)
Definition is_not_none (o : pyobj) : bool :=
  match o with PNone => false | _ => true end.

Definition training_state_set (self : t)
    (current_state_num total_states state_name : pyobj) : M unit :=
  rec ← _get_model_record self (predictor_id self) false;
  match rec with
  | None =>
      if is_not_none current_state_num || is_not_none total_states
         || is_not_none state_name
      then raise AttributeError
      else mret tt
  | Some rec =>
      let rec := if is_not_none current_state_num
                 then Predictor.set_training_phase_current current_state_num rec
                 else rec in
      let rec := if is_not_none total_states
                 then Predictor.set_training_phase_total total_states rec
                 else rec in
      let rec := if is_not_none state_name
                 then Predictor.set_training_phase_name state_name rec
                 else rec in
      commit self rec
  end.

Definition training_state_get (self : t) : M pyobj :=
  rec ← _get_model_record self (predictor_id self) false;
  match rec with
  | None => raise AttributeError
  | Some rec =>
      mret (PList [Predictor.training_phase_current rec;
                   Predictor.training_phase_total rec;
                   Predictor.training_phase_name rec])
  end.

Definition columns_get (self : t) : M pyobj :=
  rec ← _get_model_record self (predictor_id self) false;
  match rec with
  | None => raise AttributeError
  | Some rec => mret (Predictor.dtype_dict rec)
  end.

Definition columns_set (self : t) (columns : pyobj) : M unit :=
  rec ← _get_model_record self (predictor_id self) false;
  match rec with
  | None => raise AttributeError
  | Some rec => commit self (Predictor.set_dtype_dict columns rec)
  end.

Definition file_get (self : t) (name : string) : M (option bytes) :=
  fs_file_get name.

Definition file_set (self : t) (name : string) (content : bytes) : M unit :=
  fs_file_set name content.

Definition folder_get (self : t) (name : string) : M Fs.path :=
  let name := Name.replace_space (Name.lower name) in
  let name := Name.re_sub false name in
  fs_pull_path name;;
  mret (fs_get_path name).

Definition folder_sync (self : t) (name : string) : M unit :=
  let name := Name.replace_space (Name.lower name) in
  let name := Name.re_sub false name in
  fs_push_path name.

(** The four methods whose body is [...]. *)
Definition file_list (self : t) : M pyobj := mret PNone.
Definition file_del (self : t) (name : string) : M pyobj := mret PNone.

Definition json_set (self : t) (name : string) (data : pyobj) : M pyobj :=
  json_storage_set name data.

Definition json_get (self : t) (name : string) : M pyobj :=
  json_storage_get name.

Definition json_list (self : t) : M pyobj := mret PNone.
Definition json_del (self : t) (name : string) : M pyobj := mret PNone.

End ModelStorage.

(** ** [class HandlerStorage] *)

Module HandlerStorage.
Import Storage.

Record t := mk {
  integration_id : Z;
  is_temporal : bool;
}.

Section WithServiceFiles.

(** The reserved file names, imported from [fs.py]. *)
Variable SERVICE_FILES_NAMES : list string.

(** The loop of [is_empty] over [folder_path.iterdir()]. *)
Fixpoint is_empty_loop (es : Fs.folder) : bool :=
  match es with
  | [] => true
  | (name, path) :: rest =>
      if is_file path && bool_decide (name ∈ SERVICE_FILES_NAMES)
      then is_empty_loop rest
      else false
  end.

Definition is_empty (self : t) : M bool :=
  w ← get_world;
  mret (is_empty_loop (folder w)).

Definition get_connection_args (self : t) : M pyobj :=
  w ← get_world;
  match integrations w !! integration_id self with
  | None => raise AttributeError
  | Some rec => mret (Integration.data rec)
  end.

Definition update_connection_args (self : t) (connection_args : pyobj) : M unit :=
  w ← get_world;
  match integrations w !! integration_id self with
  | None => raise (KeyError "Can't find integration")
  | Some rec =>
      let rec := Integration.set_data connection_args rec in
      modify (fun w =>
        with_integrations (<[integration_id self := rec]> (integrations w)) w)
  end.

Definition file_get (self : t) (name : string) : M (option bytes) :=
  fs_pull_path name;;
  fs_file_get name.

Definition file_set (self : t) (name : string) (content : bytes) : M unit :=
  fs_file_set name content;;
  if negb (is_temporal self) then fs_push_path name else mret tt.

Definition file_list (self : t) : M pyobj := mret PNone.
Definition file_del (self : t) (name : string) : M pyobj := mret PNone.

Definition folder_get (self : t) (name : string) : M Fs.path :=
  let name := Name.convert_name name in
  fs_pull_path name;;
  mret (fs_get_path name).

Definition folder_sync (self : t) (name : string) : M unit :=
  if is_temporal self then mret tt
  else
    let name := Name.convert_name name in
    fs_push_path name.

Definition json_set (self : t) (name : string) (content : pyobj) : M pyobj :=
  json_storage_set name content.

Definition json_get (self : t) (name : string) : M pyobj :=
  json_storage_get name.

Definition json_list (self : t) : M pyobj := mret PNone.
Definition json_del (self : t) (name : string) : M pyobj := mret PNone.

(** The members [export_files] writes for one triple of [os.walk]: the files
    whose name is not reserved, under [root/file_name]. *)
Definition zip_files (root : Fs.path) (files : list (string * bytes)) : archive :=
  flat_map (fun '(file_name, content) =>
              if bool_decide (file_name ∈ SERVICE_FILES_NAMES) then []
              else [(root ++ [file_name], content)]) files.

(** [os.walk(folder_path)] on the local folder; nothing is walked when
    [folder_path] is not a directory. *)
Definition walk_folder (folder_path : Fs.path) (es : Fs.folder) :=
  match resolve folder_path (Dir es) with
  | Some n => os_walk [] n
  | None => []
  end.

(** [export_files]: [None] for an empty folder, else the archive. *)
Definition export_files (self : t) : M (option archive) :=
  empty ← is_empty self;
  if (empty : bool) then mret None
  else
    folder_path ← folder_get self "";
    w ← get_world;
    let zipf :=
      flat_map (fun '(root, dirs, files) => zip_files root files)
               (walk_folder folder_path (folder w)) in
    mret (Some zipf).

(** [import_files(content)]; [content] is [None] or the bytes of an
    archive, given as the members [ZipFile] reads from them (bytes that are
    no zip file, or members that cannot be read, are not covered).  The
    members extracted before a failure stay in the folder. *)
Definition import_files (self : t) (content : option archive) : M unit :=
  folder_path ← folder_get self "";
  match content with
  | None => raise TypeError
  | Some members =>
      w ← get_world;
      let '(ok, es) := extractall folder_path members (folder w) in
      modify (with_folder es);;
      if (ok : bool) then folder_sync self "" else raise OSError
  end.

End WithServiceFiles.



End HandlerStorage.
(** ** Vocabulary of the properties *)

Module Spec.
Import Storage.

(** Unfolds the sequencing of a method down to the state it works on. *)
Ltac run_method :=
  unfold mbind, mret, M_bind, M_ret, bind, ret, raise, log, get_world, modify;
  simpl.

(** The [data] column of the row of [self], when the row exists. *)
Definition data_of (self : ModelStorage.t) (w : world) : option pyobj :=
  Predictor.data <$> predictors w !! ModelStorage.predictor_id self.

(** The merge of the specification: [new] is a mapping holding the keys of
    [patch] with the values of [patch], and every other key of the old
    mapping unchanged; over a field that is no mapping, [new] is [patch]. *)
Definition merged (old : pyobj) (patch : gmap string pyobj) (new : pyobj) : Prop :=
  match old with
  | PDict m =>
      exists m', new = PDict m' /\
        forall k, m' !! k = match patch !! k with
                            | Some v => Some v
                            | None => m !! k
                            end
  | _ => new = PDict patch
  end.

(** The state after two calls of [update_data] in a row. *)
Definition update_twice (self : ModelStorage.t) (p1 p2 : gmap string pyobj)
    (w : world) : world :=
  (ModelStorage.update_data self p2 (ModelStorage.update_data self p1 w).2).2.

(** An entry that [is_empty] passes over: a regular file under a reserved
    name. *)
Definition service_file (service : list string) (e : string * node) : Prop :=
  is_file e.2 = true /\ e.1 ∈ service.

(** The pushes among the calls the backend received. *)
Definition pushes (w : world) : list call :=
  filter (fun c => is_push c = true) (calls w).

(** The name a call hands to the backend. *)
Definition call_name (c : call) : string :=
  match c with
  | PullPath name | PushPath name | FileGet name | FileSet name _ => name
  end.

(** The calls the backend received between state [w] and the later [w']. *)
Definition new_calls (w w' : world) : list call :=
  drop (List.length (calls w)) (calls w').

(** Every call [file_get] and [file_set] make to the backend
    carries the normalized name. *)
Definition file_keys_normalized : Prop :=
  forall (self : HandlerStorage.t) (name : string) (content : bytes) (w : world),
    Forall (fun c => call_name c = Name.convert_name name)
           (new_calls w (HandlerStorage.file_get self name w).2)
    /\ Forall (fun c => call_name c = Name.convert_name name)
              (new_calls w (HandlerStorage.file_set self name content w).2).

(** Two nodes of the same kind, with the same content when they are files. *)
Definition same_kind (n n' : node) : Prop :=
  match n, n' with
  | File c, File c' => c = c'
  | Dir _, Dir _ => True
  | _, _ => False
  end.

(** [covers x y]: whatever a path leads to from [x], it leads to a node of the
    same kind from [y], and to the same content when that is a file. *)
Definition covers (x y : node) : Prop :=
  forall p n, resolve p x = Some n ->
              exists n', resolve p y = Some n' /\ same_kind n n'.

(** The members [export_files] writes for the walk of [n], whose root is
    stored as [root]. *)
Definition members_of (service : list string) (root : path) (n : node) : archive :=
  flat_map (fun '(root, dirs, files) => HandlerStorage.zip_files service root files)
           (os_walk root n).

(** States and folders the examples run on. *)
Definition sample_world : world :=
  mk_world {[ 7%Z := Predictor.mk (PStr "training") (PStr "y") PNone PNone
                                  PNone PNone PNone PNone ]}
           ∅ ∅ [] [].

Definition trained_world : world :=
  mk_world {[ 7%Z := Predictor.mk (PStr "training") (PStr "y")
                                  (PDict {["a" := PInt 1]}) PNone
                                  PNone PNone PNone PNone ]}
           ∅ ∅ [] [].

Definition sample_service : list string := ["dir.lock"; "last_modified.txt"].

Definition sample_folder : Fs.folder :=
  [("dir.lock", File []);
   ("model.pkl", File [Byte.x6d; Byte.x31]);
   ("weights", Dir [("part0", File [Byte.x77]);
                    ("last_modified.txt", File [Byte.x30]);
                    ("empty", Dir [])])].

Definition handler_world : world := mk_world ∅ ∅ ∅ sample_folder [].

Definition connected_world : world :=
  mk_world ∅ {[ 1%Z := Integration.mk (PDict {["host" := PStr "db"]}) ]} ∅ [] [].

Definition locked_world : world :=
  mk_world ∅ ∅ ∅ [("dir.lock", File []); ("last_modified.txt", File [])] [].

End Spec.

(** ** Further vocabulary *)

Module Vocabulary.
Import Storage.

(** The [learn_args] column of the row of [self], when the row exists. *)
Definition learn_args_of (self : ModelStorage.t) (w : world) : option pyobj :=
  Predictor.learn_args <$> predictors w !! ModelStorage.predictor_id self.

(** The state after two calls of [update_learn_args] in a row. *)
Definition update_learn_args_twice (self : ModelStorage.t)
    (p1 p2 : gmap string pyobj) (w : world) : world :=
  (ModelStorage.update_learn_args self p2
     (ModelStorage.update_learn_args self p1 w).2).2.

(** A name [ZipFile.extractall] takes as it is: not empty, not ["."] or
    [".."], and without the separator ["/"] or a null character. *)
Fixpoint has_char (a : ascii) (s : string) : bool :=
  match s with
  | EmptyString => false
  | String c s' => Ascii.eqb c a || has_char a s'
  end.

Definition ordinary (name : string) : bool :=
  negb (bool_decide (name ∈ [""; "."; ".."]))
  && negb (has_char "/" name) && negb (has_char "000" name).

(** A member name made of ordinary components, and an archive of such
    members; the zip file is read without error into its members. *)
Definition plain_path (p : Fs.path) : bool :=
  negb (bool_decide (p = [])) && forallb ordinary p.

Definition plain_members (members : archive) : bool :=
  forallb (fun m => plain_path m.1) members.

(** The content of the last member of the archive stored under [q]. *)
Fixpoint last_member (q : Fs.path) (members : archive) : option bytes :=
  match members with
  | [] => None
  | (p, c) :: rest =>
      match last_member q rest with
      | Some c' => Some c'
      | None => if decide (p = q) then Some c else None
      end
  end.

(** What [training_state_set] leaves in a column: the argument when it is
    given, the old value otherwise. *)
Definition given_or (arg old : pyobj) : pyobj :=
  if ModelStorage.is_not_none arg then arg else old.

(** States the examples run on. *)
Definition fitting_world : world :=
  mk_world {[ 7%Z := Predictor.mk (PStr "training") (PStr "y") PNone PNone PNone
                                  (PInt 1) (PInt 10) (PStr "fit") ]}
           ∅ ∅ [] [].

Definition nested_world : world :=
  mk_world ∅ ∅ ∅ [("cache", Dir [("dir.lock", File [Byte.x31])])] [].

Definition patch_archive : archive :=
  [(["model.pkl"], [Byte.x30]);
   (["logs"; "run.txt"], [Byte.x31]);
   (["model.pkl"], [Byte.x32])].

Definition clashing_archive : archive :=
  [(["notes.txt"], [Byte.x30]);
   (["model.pkl"; "part"], [Byte.x31]);
   (["late.txt"], [Byte.x32])].

End Vocabulary.

(** ** The model names of the OpenAI handler

    [mindsdb/integrations/handlers/openai_handler/constants.py].  A tuple is
    the list of its items; [list(set(...))] has the items of the set in an
    order the source does not fix, and is kept as the set. *)

Module OpenAIConstants.

Definition OPENAI_API_BASE : string := "https://api.openai.com/v1".

Definition CHAT_MODELS : list string :=
  ["gpt-3.5-turbo"; "gpt-3.5-turbo-16k"; "gpt-3.5-turbo-instruct"; "gpt-4";
   "gpt-4-32k"].
Definition COMPLETION_MODELS : list string := ["babbage-002"; "davinci-002"].
Definition FINETUNING_MODELS : list string :=
  ["gpt-3.5-turbo"; "babbage-002"; "davinci-002"].
Definition COMPLETION_LEGACY_BASE_MODELS : list string :=
  ["davinci"; "curie"; "babbage"; "ada"].

Definition FINETUNING_LEGACY_MODELS : list string := COMPLETION_LEGACY_BASE_MODELS.

(** [f'{prefix}{model}{suffix}' for model in COMPLETION_LEGACY_BASE_MODELS] *)
Definition for_base_models (prefix suffix : string) : list string :=
  map (fun model => (prefix ++ model ++ suffix)%string) COMPLETION_LEGACY_BASE_MODELS.

Definition COMPLETION_LEGACY_MODELS : list string :=
  COMPLETION_LEGACY_BASE_MODELS
  ++ for_base_models "text-" "-001"
  ++ ["text-davinci-002"; "text-davinci-003"].

Definition EMBEDDING_MODELS : list string :=
  ["text-embedding-ada-002"]
  ++ for_base_models "text-similarity-" "-001"
  ++ for_base_models "text-search-" "-query-001"
  ++ for_base_models "text-search-" "-doc-001"
  ++ for_base_models "code-search-" "-text-001"
  ++ for_base_models "code-search-" "-code-001".

Definition ALL_MODELS : gset string :=
  list_to_set (CHAT_MODELS ++ COMPLETION_MODELS ++ COMPLETION_LEGACY_MODELS
               ++ EMBEDDING_MODELS).

End OpenAIConstants.

(** ** Name normalization on every string

    The same two lines of [__convert_name], on a Python string as the list of
    its code points, whatever their range.  [str.lower] and the class [\d] of
    [re] are tables of the interpreter, not of this repository: they are
    taken as parameters, [lower] on whole strings (the lowering of a
    character may be several code points, and may look at its neighbours)
    and [decimal] for the characters [\d] matches. *)

Module Unicode.

Definition between (lo hi c : N) : bool := (lo <=? c)%N && (c <=? hi)%N.

Section Tables.

Variable lower : list N -> list N.
Variable decimal : N -> bool.

(** [str.replace(' ', '_')] *)
Definition replace_space (s : list N) : list N :=
  map (fun c => if (c =? 32)%N then 95%N else c) s.

(** The characters listed after the leading [^] of the class
    [[^a-z^A-Z^_\d]]. *)
Definition listed (c : N) : bool :=
  between 97 122 c      (* a-z *)
  || (c =? 94)%N        (* ^   *)
  || between 65 90 c    (* A-Z *)
  || (c =? 94)%N        (* ^   *)
  || (c =? 95)%N        (* _   *)
  || decimal c.         (* \d  *)

(** [re.sub(r'([^a-z^A-Z^_\d]+)', '_', s)], as [Name.re_sub]. *)
Fixpoint re_sub (in_run : bool) (s : list N) : list N :=
  match s with
  | [] => []
  | c :: s' =>
      if listed c then c :: re_sub false s'
      else if in_run then re_sub true s'
      else 95%N :: re_sub true s'
  end.

Definition convert_name (name : list N) : list N :=
  let name := replace_space (lower name) in
  re_sub false name.

(** The characters of a normalized name: [a-z], [^], [_] and the decimal
    digits; a space is none of them. *)
Definition kept (c : N) : bool :=
  (between 97 122 c || (c =? 94)%N || (c =? 95)%N || decimal c)
  && negb (c =? 32)%N.

(** What the normalization needs of [str.lower]: its result holds no
    character of [A-Z], and it leaves a string of kept characters as it
    is. *)
Definition lowers_capitals : Prop :=
  forall s c, c ∈ lower s -> between 65 90 c = false.

Definition fixes_kept : Prop :=
  forall t, forallb kept t = true -> lower t = t.

End Tables.

(** The tables on the code points below 256, as [Name] has them: the
    lowering of [Name.lower_char] character by character, and [0-9]. *)
Definition latin1_lower_char (c : N) : N :=
  if between 65 90 c || (between 192 222 c && negb (c =? 215)%N)
  then (c + 32)%N else c.

Definition latin1_lower (s : list N) : list N := map latin1_lower_char s.

Definition ascii_decimal (c : N) : bool := between 48 57 c.

(** The code points of a string of 8-bit characters. *)
Fixpoint codes (s : string) : list N :=
  match s with
  | EmptyString => []
  | String c s' => N_of_ascii c :: codes s'
  end.

End Unicode.

(** ** Properties of the name normalization *)

Module NameFacts.
Import Name.

Ltac each_char c :=
  destruct c as [[] [] [] [] [] [] [] []]; vm_compute; try reflexivity; try discriminate.

Lemma scanned_char_stable (c : ascii) :
  let c' := if Ascii.eqb (lower_char c) " " then "_"%char else lower_char c in
  listed c' = true -> stable c' = true.
Proof. each_char c. Qed.

Lemma underscore_stable : stable "_" = true.
Proof. reflexivity. Qed.

Lemma re_sub_stable (s : string) (b : bool) :
  all_chars (fun c => negb (listed c) || stable c) s = true ->
  all_chars stable (re_sub b s) = true.
Proof.
  revert b. induction s as [|c s IH]; intros b H; simpl in *; [done|].
  apply andb_prop in H as [Hc Hs].
  destruct (listed c) eqn:Hl; simpl in *.
  - rewrite Hc. simpl. by apply IH.
  - destruct b; simpl; by apply IH.
Qed.

Lemma prepared_chars (s : string) :
  all_chars (fun c => negb (listed c) || stable c) (replace_space (lower s)) = true.
Proof.
  induction s as [|c s IH]; simpl; [done|].
  rewrite IH, andb_true_r.
  pose proof (scanned_char_stable c) as H. simpl in H.
  destruct (listed _) eqn:Hl; simpl; [by apply H | done].
Qed.

Lemma convert_name_stable (s : string) : all_chars stable (convert_name s) = true.
Proof. apply re_sub_stable, prepared_chars. Qed.

Lemma stable_fixed (s : string) :
  all_chars stable s = true -> convert_name s = s.
Proof.
  unfold convert_name.
  induction s as [|c s IH]; simpl; [done|].
  intros H. apply andb_prop in H as [Hc Hs].
  unfold stable in Hc.
  apply andb_prop in Hc as [Hc Hsp]. apply andb_prop in Hc as [Hl Hlow].
  apply Ascii.eqb_eq in Hlow. rewrite Hlow.
  destruct (Ascii.eqb c " ") eqn:E; [done|].
  rewrite Hl. f_equal. by apply IH.
Qed.

(** C4.  The normalization keeps the character [^]: it is listed in the class
    of the pattern, so it is neither replaced nor part of a run.  The result
    ["a^b"] holds a character outside [[a-z0-9_]], and it is the name
    [folder_get] of either facade pulls; on the input of the specification's
    example the result is ["my_folder_1"]. *)
Theorem convert_name_keeps_caret :
  convert_name "a^b" = "a^b"
  /\ all_chars plain (convert_name "a^b") = false
  /\ convert_name "A^^B !" = "a^^b__"
  /\ convert_name "My Folder!!1" = "my_folder_1"
  /\ Storage.calls
       (HandlerStorage.folder_get (HandlerStorage.mk 1 false) "a^b"
          Spec.handler_world).2 = [Storage.PullPath "a^b"]
  /\ Storage.calls
       (ModelStorage.folder_get (ModelStorage.mk 7) "a^b" Spec.sample_world).2
     = [Storage.PullPath "a^b"].
Proof. repeat split; reflexivity. Qed.

(** On the strings of 8-bit characters the normalization is idempotent. *)
Lemma convert_name_idempotent (s : string) :
  convert_name (convert_name s) = convert_name s.
Proof. apply stable_fixed, convert_name_stable. Qed.

End NameFacts.

(** ** The name normalization on every string *)

Module UnicodeFacts.
Import Unicode.

Section Normalization.

Variable lower : list N -> list N.
Variable decimal : N -> bool.

Lemma replaced_chars (s : list N) (c : N) :
  lowers_capitals lower ->
  c ∈ replace_space (lower s) ->
  between 65 90 c = false /\ (c =? 32)%N = false.
Proof.
  intros Hlow (c0 & -> & Hc0)%list_elem_of_fmap.
  destruct (c0 =? 32)%N eqn:Hsp; [done|].
  split; [by apply (Hlow s) | done].
Qed.

Lemma listed_kept (c : N) :
  listed decimal c = true -> between 65 90 c = false -> (c =? 32)%N = false ->
  kept decimal c = true.
Proof.
  unfold listed, kept. intros Hl Hcap Hsp. rewrite Hcap, Hsp in *.
  destruct (between 97 122 c), (c =? 94)%N, (c =? 95)%N, (decimal c); done.
Qed.

Lemma kept_listed (c : N) :
  kept decimal c = true -> listed decimal c = true /\ (c =? 32)%N = false.
Proof.
  unfold listed, kept. intros [Hk Hsp]%andb_prop.
  split; [|by destruct (c =? 32)%N].
  destruct (between 97 122 c), (c =? 94)%N, (c =? 95)%N, (decimal c),
    (between 65 90 c); done.
Qed.

Lemma underscore_kept : kept decimal 95 = true.
Proof. reflexivity. Qed.

Lemma re_sub_kept (b : bool) (s : list N) :
  (forall c, c ∈ s -> between 65 90 c = false /\ (c =? 32)%N = false) ->
  forallb (kept decimal) (re_sub decimal b s) = true.
Proof.
  revert b. induction s as [|c s IH]; intros b Hs; [done|].
  assert (forall c', c' ∈ s -> between 65 90 c' = false /\ (c' =? 32)%N = false)
    as Hs' by (intros c' Hc'; apply Hs; by apply list_elem_of_further).
  destruct (Hs c (list_elem_of_here _ _)) as [Hcap Hsp].
  cbn [re_sub]. destruct (listed decimal c) eqn:Hl.
  - cbn [forallb]. rewrite (listed_kept c Hl Hcap Hsp). by apply IH.
  - destruct b; [by apply IH|].
    cbn [forallb]. rewrite underscore_kept. by apply IH.
Qed.

Lemma convert_name_kept (s : list N) :
  lowers_capitals lower ->
  forallb (kept decimal) (convert_name lower decimal s) = true.
Proof.
  intros Hlow. apply re_sub_kept. intros c Hc. by apply (replaced_chars s).
Qed.

Lemma re_sub_listed (b : bool) (s : list N) :
  forallb (kept decimal) s = true -> re_sub decimal b s = s.
Proof.
  revert b. induction s as [|c s IH]; intros b Hs; [done|].
  cbn [forallb] in Hs. apply andb_prop in Hs as [Hc Hs].
  apply kept_listed in Hc as [Hl _]. cbn [re_sub]. rewrite Hl.
  by rewrite IH.
Qed.

Lemma replace_space_kept (s : list N) :
  forallb (kept decimal) s = true -> replace_space s = s.
Proof.
  induction s as [|c s IH]; intros Hs; [done|].
  cbn [forallb] in Hs. apply andb_prop in Hs as [Hc Hs].
  apply kept_listed in Hc as [_ Hsp].
  unfold replace_space in *. cbn [map]. rewrite Hsp. by rewrite IH.
Qed.

Lemma kept_fixed (s : list N) :
  fixes_kept lower decimal ->
  forallb (kept decimal) s = true -> convert_name lower decimal s = s.
Proof.
  intros Hfix Hs. unfold convert_name.
  rewrite (Hfix s Hs), (replace_space_kept s Hs). by apply re_sub_listed.
Qed.

(** C5.  The name normalization is idempotent on every string of code
    points, whatever their range: for a [str.lower] that leaves no character
    of [A-Z] and changes no string written in [a-z], [^], [_] and decimal
    digits, normalizing the normalized name gives it back. *)
Theorem convert_name_idempotent_on_every_string (s : list N) :
  lowers_capitals lower ->
  fixes_kept lower decimal ->
  convert_name lower decimal (convert_name lower decimal s)
    = convert_name lower decimal s.
Proof.
  intros Hlow Hfix. apply kept_fixed; [done|]. by apply convert_name_kept.
Qed.

Lemma re_sub_chars (b : bool) (s : list N) (c : N) :
  c ∈ re_sub decimal b s -> c = 95%N \/ c ∈ s.
Proof.
  revert b. induction s as [|c0 s IH]; intros b; [by intros H%elem_of_nil|].
  cbn [re_sub]. destruct (listed decimal c0).
  - intros [->|H]%elem_of_cons; [right; apply list_elem_of_here|].
    destruct (IH _ H); [by left | right; by apply list_elem_of_further].
  - destruct b.
    + intros H. destruct (IH _ H); [by left | right; by apply list_elem_of_further].
    + intros [->|H]%elem_of_cons; [by left|].
      destruct (IH _ H); [by left | right; by apply list_elem_of_further].
Qed.

(** X1.  Whatever the string, its normalization is written in [a-z], [_],
    [^] and the decimal digits [\d] matches, and holds no space and no
    character of [A-Z]. *)
Theorem convert_name_alphabet (s : list N) :
  lowers_capitals lower ->
  forallb (kept decimal) (convert_name lower decimal s) = true
  /\ forall c, c ∈ convert_name lower decimal s ->
       (c =? 32)%N = false /\ between 65 90 c = false.
Proof.
  intros Hlow. split; [by apply convert_name_kept|].
  intros c [->|Hc]%re_sub_chars; [done|].
  destruct (replaced_chars s c Hlow Hc). done.
Qed.

(** X2.  The strings the normalization leaves as they are, are exactly the
    strings written in [a-z], [_], [^] and the decimal digits. *)
Theorem convert_name_fixed_iff (s : list N) :
  lowers_capitals lower ->
  fixes_kept lower decimal ->
  convert_name lower decimal s = s <-> forallb (kept decimal) s = true.
Proof.
  intros Hlow Hfix. split.
  - intros <-. by apply convert_name_kept.
  - by apply kept_fixed.
Qed.

End Normalization.

(** *** The tables of the code points below 256 *)

Lemma latin1_lowers_capitals : lowers_capitals latin1_lower.
Proof.
  intros s c (c0 & -> & _)%list_elem_of_fmap.
  unfold latin1_lower_char, between.
  destruct (_ || _) eqn:Hcase.
  - apply andb_false_iff.
    apply orb_prop in Hcase as [H|H].
    + apply andb_prop in H as [H1 H2]. apply N.leb_le in H1, H2.
      right. apply N.leb_gt. lia.
    + apply andb_prop in H as [H _]. apply andb_prop in H as [H1 H2].
      apply N.leb_le in H1, H2. right. apply N.leb_gt. lia.
  - by apply orb_false_elim in Hcase as [-> _].
Qed.

Lemma latin1_lower_kept (c : N) :
  kept ascii_decimal c = true -> latin1_lower_char c = c.
Proof.
  unfold kept, ascii_decimal, latin1_lower_char, between.
  intros [Hk _]%andb_prop.
  assert ((48 <= c <= 57 \/ 94 <= c <= 95 \/ 97 <= c <= 122)%N) as Hc.
  { repeat (apply orb_prop in Hk as [Hk|Hk]).
    - apply andb_prop in Hk as [H1 H2]. apply N.leb_le in H1, H2. lia.
    - apply N.eqb_eq in Hk. lia.
    - apply N.eqb_eq in Hk. lia.
    - apply andb_prop in Hk as [H1 H2]. apply N.leb_le in H1, H2. lia. }
  replace (65 <=? c)%N with (if (c <=? 90)%N then (65 <=? c)%N else true).
  2:{ destruct (N.leb_spec c 90), (N.leb_spec 65 c); try done; lia. }
  destruct (N.leb_spec c 90) as [H90|H90].
  - destruct (N.leb_spec 65 c); [lia|]. simpl.
    destruct (N.leb_spec 192 c); [lia | done].
  - simpl. destruct (N.leb_spec 192 c); [lia | done].
Qed.

Lemma latin1_fixes_kept : fixes_kept latin1_lower ascii_decimal.
Proof.
  intros t. induction t as [|c t IH]; intros Ht; [done|].
  cbn [forallb] in Ht. apply andb_prop in Ht as [Hc Ht].
  unfold latin1_lower in *. cbn [map].
  by rewrite (latin1_lower_kept c Hc), IH.
Qed.

(** On the strings of 8-bit characters the normalization is the one of
    [Name]. *)
Lemma lower_char_code (c : ascii) :
  N_of_ascii (Name.lower_char c) = latin1_lower_char (N_of_ascii c).
Proof. NameFacts.each_char c. Qed.

Lemma spaced_char_code (c : ascii) :
  N_of_ascii (if Ascii.eqb c " " then "_"%char else c)
    = if (N_of_ascii c =? 32)%N then 95%N else N_of_ascii c.
Proof. NameFacts.each_char c. Qed.

Lemma listed_code (c : ascii) :
  Name.listed c = listed ascii_decimal (N_of_ascii c).
Proof. NameFacts.each_char c. Qed.

Lemma re_sub_codes (b : bool) (s : string) :
  codes (Name.re_sub b s) = re_sub ascii_decimal b (codes s).
Proof.
  revert b. induction s as [|c s IH]; intros b; [done|].
  cbn [Name.re_sub codes re_sub]. rewrite <- listed_code.
  destruct (Name.listed c); [by rewrite <- IH|].
  destruct b; by rewrite <- IH.
Qed.

Lemma convert_name_codes (s : string) :
  codes (Name.convert_name s)
    = convert_name latin1_lower ascii_decimal (codes s).
Proof.
  unfold Name.convert_name, convert_name. rewrite re_sub_codes. f_equal.
  induction s as [|c s IH]; [done|].
  cbn [Name.lower Name.replace_space codes latin1_lower replace_space map].
  rewrite spaced_char_code, lower_char_code. f_equal. exact IH.
Qed.

Lemma convert_name_idempotent_on_every_string_witness :
  convert_name latin1_lower ascii_decimal
    (convert_name latin1_lower ascii_decimal (codes "My Folder!!1"))
  = codes "my_folder_1".
Proof.
  rewrite (convert_name_idempotent_on_every_string latin1_lower ascii_decimal
             (codes "My Folder!!1") latin1_lowers_capitals latin1_fixes_kept).
  reflexivity.
Defined.

Lemma convert_name_alphabet_witness :
  forallb (kept ascii_decimal)
    (convert_name latin1_lower ascii_decimal (codes "A^^B !")) = true.
Proof.
  exact (proj1 (convert_name_alphabet latin1_lower ascii_decimal (codes "A^^B !")
                  latin1_lowers_capitals)).
Defined.

Lemma convert_name_fixed_iff_witness :
  convert_name latin1_lower ascii_decimal (codes "a^b_1") = codes "a^b_1".
Proof.
  apply (convert_name_fixed_iff latin1_lower ascii_decimal (codes "a^b_1")
           latin1_lowers_capitals latin1_fixes_kept).
  reflexivity.
Defined.

End UnicodeFacts.


(** ** Properties of the local folder *)

Module FsFacts.
Import Fs Spec.

(** Induction on a tree: a property of a directory may use the property of
    each of its entries. *)
Lemma node_rect_entries (P : node -> Prop) :
  (forall c, P (File c)) ->
  (forall es, Forall (fun e => P e.2) es -> P (Dir es)) ->
  forall n, P n.
Proof.
  intros Hfile Hdir. fix IH 1. intros [c|es]; [apply Hfile|].
  apply Hdir. induction es as [|[name n] es IHes]; constructor.
  - apply IH.
  - apply IHes.
Qed.

Lemma find_set_entry_eq (name : string) (x : node) (es : folder) :
  find_entry name (set_entry name x es) = Some x.
Proof.
  induction es as [|[n y] es IH]; simpl.
  - by rewrite decide_True.
  - destruct (decide (n = name)) as [->|Hne]; simpl.
    + by rewrite decide_True.
    + by rewrite decide_False.
Qed.

Lemma find_set_entry_ne (name name' : string) (x : node) (es : folder) :
  name <> name' ->
  find_entry name' (set_entry name x es) = find_entry name' es.
Proof.
  intros Hne. induction es as [|[n y] es IH]; simpl.
  - by rewrite decide_False.
  - destruct (decide (n = name)) as [->|Hn]; simpl.
    + by rewrite !decide_False.
    + by rewrite IH.
Qed.

Lemma find_entry_elem (name : string) (x : node) (es : folder) :
  find_entry name es = Some x -> (name, x) ∈ es.
Proof.
  induction es as [|[n y] es IH]; simpl; [done|].
  destruct (decide (n = name)) as [->|Hn].
  - intros [= ->]. apply list_elem_of_here.
  - intros H. apply list_elem_of_further. by apply IH.
Qed.

Lemma elem_find_entry (name : string) (x : node) (es : folder) :
  NoDup es.*1 -> (name, x) ∈ es -> find_entry name es = Some x.
Proof.
  induction es as [|[n y] es IH]; simpl; intros Hnd Hin.
  - by apply elem_of_nil in Hin.
  - apply NoDup_cons in Hnd as [Hn Hnd].
    apply elem_of_cons in Hin as [[= -> ->]|Hin].
    + by rewrite decide_True.
    + rewrite decide_False; [by apply IH|].
      intros ->. apply Hn. apply list_elem_of_fmap. by exists (name, x).
Qed.

Lemma set_entry_fst (name : string) (x : node) (es : folder) :
  (set_entry name x es).*1 =
    if decide (name ∈ es.*1) then es.*1 else es.*1 ++ [name].
Proof.
  induction es as [|[n y] es IH].
  - reflexivity.
  - cbn [set_entry fmap list_fmap fst].
    destruct (decide (n = name)) as [->|Hne]; cbn [fmap list_fmap fst].
    + destruct (decide (name ∈ name :: es.*1)) as [_|H]; [done|].
      exfalso. apply H, list_elem_of_here.
    + rewrite IH.
      destruct (decide (name ∈ es.*1)) as [Hin|Hin];
        destruct (decide (name ∈ n :: es.*1)) as [Hin'|Hin']; try done.
      * exfalso. apply Hin'. by apply list_elem_of_further.
      * exfalso. apply elem_of_cons in Hin' as [?|?]; [congruence | done].
Qed.

Lemma set_entry_names (name : string) (x : node) (es : folder) :
  NoDup es.*1 -> NoDup (set_entry name x es).*1.
Proof.
  intros Hnd. rewrite set_entry_fst. destruct (decide (name ∈ es.*1)); [done|].
  apply NoDup_app. split; [done|]. split; [|apply NoDup_singleton].
  intros y Hy ->%list_elem_of_singleton. done.
Qed.

Lemma wf_set_entry (name : string) (x : node) (es : folder) :
  wf es = true -> wf_node x = true -> wf (set_entry name x es) = true.
Proof.
  unfold wf. simpl. intros [Hnd Hall]%andb_prop Hx.
  apply bool_decide_eq_true in Hnd.
  apply andb_true_intro. split.
  - apply bool_decide_eq_true. by apply set_entry_names.
  - clear Hnd. induction es as [|[n y] es IH]; simpl in *.
    + by rewrite Hx.
    + apply andb_prop in Hall as [Hy Hall].
      destruct (decide (n = name)); simpl.
      * by rewrite Hx, Hall.
      * by rewrite Hy, IH.
Qed.

Lemma wf_find_entry (name : string) (x : node) (es : folder) :
  wf es = true -> find_entry name es = Some x -> wf_node x = true.
Proof.
  unfold wf. simpl. intros [_ Hall]%andb_prop Hf.
  apply find_entry_elem in Hf.
  rewrite forallb_forall in Hall.
  apply (Hall (name, x)). by apply list_elem_of_In.
Qed.

Lemma wf_nil : wf [] = true.
Proof. reflexivity. Qed.

(** *** Reading after an entry was set *)

Lemma resolve_cons (name : string) (r : path) (es : folder) :
  resolve (name :: r) (Dir es) =
    match find_entry name es with Some x => resolve r x | None => None end.
Proof. reflexivity. Qed.

Lemma resolve_file (p : path) (c : bytes) :
  p <> [] -> resolve p (File c) = None.
Proof. by destruct p. Qed.

Lemma read_file_nil (p : path) : read_file p [] = None.
Proof. by destruct p. Qed.

Lemma read_file_set_entry (name : string) (x : node) (t : folder) (q : path) :
  read_file q (set_entry name x t) =
    match q with
    | [] => None
    | nm :: r =>
        if decide (nm = name)
        then match resolve r x with Some (File c) => Some c | _ => None end
        else read_file q t
    end.
Proof.
  destruct q as [|nm r]; [done|].
  unfold read_file. rewrite !resolve_cons.
  destruct (decide (nm = name)) as [->|Hne].
  - by rewrite find_set_entry_eq.
  - by rewrite find_set_entry_ne.
Qed.

(** *** Folders that agree *)

Lemma covers_kind (x y : node) : covers x y -> same_kind x y.
Proof. intros H. destruct (H [] x eq_refl) as (n' & [= <-] & Hk). done. Qed.

Lemma same_kind_refl (n : node) : same_kind n n.
Proof. by destruct n. Qed.

Lemma covers_refl (x : node) : covers x x.
Proof. intros p n Hp. exists n. split; [done | apply same_kind_refl]. Qed.

Lemma covers_empty (d : folder) : covers (Dir []) (Dir d).
Proof.
  intros [|nm r] n; simpl; [|done].
  intros [= <-]. by exists (Dir d).
Qed.

Lemma covers_entry (t d : folder) (name : string) (x : node) :
  covers (Dir t) (Dir d) -> find_entry name t = Some x ->
  exists y, find_entry name d = Some y /\ covers x y.
Proof.
  intros Hc Ht.
  destruct (Hc [name] x) as (y & Hy & _).
  { rewrite resolve_cons, Ht. done. }
  rewrite resolve_cons in Hy.
  destruct (find_entry name d) as [y'|] eqn:Hd; [|done].
  simpl in Hy. injection Hy as ->.
  exists y. split; [done|].
  intros r n Hr. destruct (Hc (name :: r) n) as (n' & Hn' & Hk).
  { rewrite resolve_cons, Ht. done. }
  rewrite resolve_cons, Hd in Hn'. by exists n'.
Qed.

Lemma covers_set_entry (t d : folder) (name : string) (x y : node) :
  covers (Dir t) (Dir d) -> find_entry name d = Some y -> covers x y ->
  covers (Dir (set_entry name x t)) (Dir d).
Proof.
  intros Hc Hd Hxy [|nm r] n.
  - simpl. intros [= <-]. by exists (Dir d).
  - rewrite resolve_cons. destruct (decide (nm = name)) as [->|Hne].
    + rewrite find_set_entry_eq. intros Hr.
      destruct (Hxy r n Hr) as (n' & Hn' & Hk).
      exists n'. by rewrite resolve_cons, Hd.
    + rewrite find_set_entry_ne by done. intros Hr.
      apply (Hc (nm :: r) n). by rewrite resolve_cons.
Qed.

Lemma covers_read_file (t d : folder) (p : path) (c : bytes) :
  covers (Dir t) (Dir d) -> read_file p t = Some c -> read_file p d = Some c.
Proof.
  unfold read_file. intros Hc Hp.
  destruct (resolve p (Dir t)) as [[c'|]|] eqn:Ht; try done.
  injection Hp as ->.
  destruct (Hc p _ Ht) as (n' & -> & Hk).
  destruct n'; simpl in Hk; [by subst | done].
Qed.

(** *** Extraction of one member *)

Lemma write_file_covered (p : path) :
  forall (c : bytes) (t d : folder),
    wf t = true -> covers (Dir t) (Dir d) ->
    resolve p (Dir d) = Some (File c) ->
    exists t',
      write_file p c t = Some t'
      /\ wf t' = true
      /\ covers (Dir t') (Dir d)
      /\ forall q, read_file q t' = if decide (q = p) then Some c else read_file q t.
Proof.
  induction p as [|name rest IH]; intros c t d Hwf Hc Hd; [done|].
  rewrite resolve_cons in Hd.
  destruct (find_entry name d) as [y|] eqn:Hy; [|done].
  destruct rest as [|r0 rs].
  - simpl in Hd. injection Hd as ->.
    assert (forall s, find_entry name t <> Some (Dir s)) as Hnodir.
    { intros s Hs. destruct (covers_entry _ _ _ _ Hc Hs) as (y & Hy' & Hk).
      rewrite Hy in Hy'. injection Hy' as <-. by apply covers_kind in Hk. }
    exists (set_entry name (File c) t). split; [|split; [|split]].
    + simpl. destruct (find_entry name t) as [[|s]|] eqn:Ht; try done.
      by destruct (Hnodir s).
    + by apply wf_set_entry.
    + eapply covers_set_entry; [done | done | apply covers_refl].
    + intros q. rewrite read_file_set_entry. destruct q as [|nm r].
      * by rewrite decide_False.
      * destruct (decide (nm = name)) as [->|Hne].
        -- destruct r as [|r1 r2]; simpl.
           ++ by rewrite decide_True.
           ++ rewrite decide_False by done.
              unfold read_file. rewrite resolve_cons.
              destruct (find_entry name t) as [[|s]|] eqn:Ht; try done.
              by destruct (Hnodir s).
        -- rewrite decide_False; [done | congruence].
  - destruct y as [cy|d']; [done|].
    assert (exists s, wf s = true /\ covers (Dir s) (Dir d')
                      /\ (forall r, read_file (name :: r) t = read_file r s)
                      /\ write_file (name :: r0 :: rs) c t =
                           match write_file (r0 :: rs) c s with
                           | Some s' => Some (set_entry name (Dir s') t)
                           | None => None
                           end) as (s & Hwfs & Hcs & Hread & Hwrite).
    { destruct (find_entry name t) as [[c1|s]|] eqn:Ht.
      - destruct (covers_entry _ _ _ _ Hc Ht) as (y & Hy' & Hk).
        rewrite Hy in Hy'. injection Hy' as <-. by apply covers_kind in Hk.
      - exists s. split; [|split; [|split]].
        + by apply (wf_find_entry name (Dir s) t).
        + destruct (covers_entry _ _ _ _ Hc Ht) as (y & Hy' & Hk).
          rewrite Hy in Hy'. by injection Hy' as <-.
        + intros r. unfold read_file. by rewrite resolve_cons, Ht.
        + cbn [write_file]. by rewrite Ht.
      - exists []. split; [|split; [|split]].
        + apply wf_nil.
        + apply covers_empty.
        + intros r. unfold read_file. rewrite resolve_cons, Ht.
          by destruct r.
        + cbn [write_file]. by rewrite Ht. }
    destruct (IH c s d' Hwfs Hcs Hd) as (s' & Hs' & Hwfs' & Hcs' & Hreads').
    exists (set_entry name (Dir s') t). split; [|split; [|split]].
    + by rewrite Hwrite, Hs'.
    + by apply wf_set_entry.
    + by eapply covers_set_entry.
    + intros q. rewrite read_file_set_entry. destruct q as [|nm r].
      * by rewrite decide_False.
      * destruct (decide (nm = name)) as [->|Hne].
        -- fold (read_file r s'). rewrite Hreads', Hread.
           destruct (decide (r = r0 :: rs)) as [->|Hr].
           ++ by rewrite decide_True.
           ++ rewrite decide_False; [done | congruence].
        -- rewrite decide_False; [done | congruence].
Qed.

Lemma read_file_resolve (p : path) (c : bytes) (es : folder) :
  read_file p es = Some c <-> resolve p (Dir es) = Some (File c).
Proof.
  unfold read_file. destruct (resolve p (Dir es)) as [[c'|]|]; split; congruence.
Qed.

(** *** Extraction of an archive *)

Lemma extractall_covered (members : archive) :
  forall t d : folder,
    wf t = true -> covers (Dir t) (Dir d) ->
    (forall p c, (p, c) ∈ members -> read_file p d = Some c) ->
    exists t',
      extractall [] members t = (true, t')
      /\ wf t' = true
      /\ covers (Dir t') (Dir d)
      /\ forall q c, read_file q t' = Some c
                     <-> (q, c) ∈ members \/ read_file q t = Some c.
Proof.
  induction members as [|[p c0] members IH]; intros t d Hwf Hc Hm.
  - exists t. repeat split; try done.
    + by right.
    + intros [H|H]; [by apply elem_of_nil in H | done].
  - assert (resolve p (Dir d) = Some (File c0)) as Hp.
    { apply read_file_resolve, Hm, list_elem_of_here. }
    destruct (write_file_covered p c0 t d Hwf Hc Hp) as (t1 & Hw & Hwf1 & Hc1 & Hr1).
    destruct (IH t1 d Hwf1 Hc1) as (t' & He & Hwf' & Hc' & Hr').
    { intros q c Hq. apply Hm. by apply list_elem_of_further. }
    exists t'. split; [|split; [|split]]; try done.
    + cbn [extractall app]. by rewrite Hw.
    + intros q c. rewrite Hr', Hr1, elem_of_cons.
      destruct (decide (q = p)) as [->|Hne].
      * split.
        -- intros [H|[= ->]]; [by left; right | by left; left].
        -- intros [[[= ->]|H]|H]; [by right | by left |].
           right. f_equal.
           apply (covers_read_file _ _ _ _ Hc) in H.
           apply read_file_resolve in H. congruence.
      * split.
        -- intros [H|H]; [by left; right | by right].
        -- intros [[[= -> ->]|H]|H]; [done | by left | by right].
Qed.

(** *** The members of an exported archive *)

Section Members.
Variable service : list string.

Lemma elem_of_flat_map {A B} (f : A -> list B) (l : list A) (y : B) :
  y ∈ flat_map f l <-> exists x, x ∈ l /\ y ∈ f x.
Proof.
  rewrite list_elem_of_In, in_flat_map. split.
  - intros (x & Hx & Hy). exists x. by rewrite !list_elem_of_In.
  - intros (x & Hx & Hy). exists x. by rewrite <- !list_elem_of_In.
Qed.

Lemma basename_cons (name : string) (q : path) :
  q <> [] -> basename (name :: q) = basename q.
Proof. by destruct q. Qed.

Lemma members_of_dir (root : path) (es : folder) (p : path) (c : bytes) :
  (p, c) ∈ members_of service root (Dir es) <->
    (exists name, (name, File c) ∈ es /\ (name ∉ service) /\ p = root ++ [name])
    \/ (exists e, e ∈ es /\ (p, c) ∈ members_of service (root ++ [e.1]) e.2).
Proof.
  unfold members_of, HandlerStorage.zip_files. cbn [os_walk flat_map].
  rewrite elem_of_app. apply Morphisms_Prop.or_iff_morphism.
  - rewrite elem_of_flat_map. split.
    + intros ([name c'] & Hin & Hp).
      apply list_elem_of_omap in Hin as ([n x] & Hin & Hx). simpl in Hx.
      destruct x as [c''|]; [|done]. injection Hx as -> ->.
      case_bool_decide as Hs; [by apply elem_of_nil in Hp|].
      apply list_elem_of_singleton in Hp as [= -> ->]. by exists name.
    + intros (name & Hin & Hs & ->). exists (name, c). split.
      * apply list_elem_of_omap. by exists (name, File c).
      * rewrite bool_decide_eq_false_2 by done. apply list_elem_of_here.
  - rewrite elem_of_flat_map. split.
    + intros (triple & Hin & Hp).
      apply elem_of_flat_map in Hin as (e & He & Hin).
      exists e. split; [done|]. apply elem_of_flat_map. by exists triple.
    + intros (e & He & Hp). apply elem_of_flat_map in Hp as (triple & Hin & Hp).
      exists triple. split; [|done]. apply elem_of_flat_map. by exists e.
Qed.

Lemma members_of_spec (n : node) :
  wf_node n = true ->
  forall root p c,
    (p, c) ∈ members_of service root n <->
      exists q, q <> [] /\ p = root ++ q
                /\ resolve q n = Some (File c) /\ (basename q ∉ service).
Proof.
  induction n as [c0|es IH] using node_rect_entries; intros Hwf root p c.
  - split; [by intros H%elem_of_nil|].
    intros (q & Hq & _ & Hr & _). by rewrite resolve_file in Hr.
  - simpl in Hwf. apply andb_prop in Hwf as [Hnd Hall].
    apply bool_decide_eq_true in Hnd. rewrite forallb_forall in Hall.
    rewrite Forall_forall in IH.
    rewrite members_of_dir. split.
    + intros [(name & Hin & Hs & ->)|(e & He & Hin)].
      * exists [name]. repeat split; try done.
        rewrite resolve_cons, (elem_find_entry _ _ _ Hnd Hin). done.
      * apply IH in Hin as (q & Hq & -> & Hr & Hs); try done.
        2:{ apply Hall. by apply list_elem_of_In. }
        exists (e.1 :: q). repeat split; try done.
        -- by rewrite <- app_assoc.
        -- rewrite resolve_cons. destruct e as [name x]. simpl in *.
           by rewrite (elem_find_entry _ _ _ Hnd He).
        -- by rewrite basename_cons.
    + intros (q & Hq & -> & Hr & Hs). destruct q as [|name r]; [done|].
      rewrite resolve_cons in Hr.
      destruct (find_entry name es) as [x|] eqn:Hx; [|done].
      apply find_entry_elem in Hx.
      destruct r as [|r0 rs].
      * simpl in Hr. injection Hr as ->. left. by exists name.
      * right. exists (name, x). split; [done|]. simpl.
        apply (IH (name, x)); try done.
        -- apply (Hall (name, x)). by apply list_elem_of_In.
        -- exists (r0 :: rs). repeat split; try done.
           by rewrite <- app_assoc.
Qed.

End Members.

End FsFacts.

(** ** Properties of [ModelStorage] *)

Module ModelFacts.
Import Storage ModelStorage Spec Vocabulary.

Lemma merged_dict_update (old : pyobj) (patch : gmap string pyobj) :
  merged old patch
    (if negb (is_dict old) then PDict patch else dict_update old patch).
Proof.
  destruct old; simpl; try reflexivity.
  eexists; split; [reflexivity|].
  intros k. rewrite lookup_union.
  destruct (patch !! k) as [v|] eqn:Hp; simpl.
  - by destruct (m !! k).
  - by destruct (m !! k).
Qed.

Lemma update_data_found (self : t) (w : world) (rec : Predictor.t)
    (patch : gmap string pyobj) :
  predictors w !! predictor_id self = Some rec ->
  update_data self patch w =
    (Ok tt,
     with_predictors
       (<[predictor_id self :=
            Predictor.set_data
              (if negb (is_dict (Predictor.data rec)) then PDict patch
               else dict_update (Predictor.data rec) patch) rec]> (predictors w)) w).
Proof.
  intros Hrec. unfold update_data, _get_model_record, commit. run_method.
  rewrite Hrec. simpl. by destruct (is_dict (Predictor.data rec)).
Qed.

Lemma update_learn_args_found (self : t) (w : world) (rec : Predictor.t)
    (patch : gmap string pyobj) :
  predictors w !! predictor_id self = Some rec ->
  update_learn_args self patch w =
    (Ok tt,
     with_predictors
       (<[predictor_id self :=
            Predictor.set_learn_args
              (if negb (is_dict (Predictor.learn_args rec)) then PDict patch
               else dict_update (Predictor.learn_args rec) patch) rec]>
          (predictors w)) w).
Proof.
  intros Hrec. unfold update_learn_args, _get_model_record, commit. run_method.
  rewrite Hrec. simpl. by destruct (is_dict (Predictor.learn_args rec)).
Qed.

Lemma data_of_update_data (self : t) (w : world) (rec : Predictor.t)
    (patch : gmap string pyobj) :
  predictors w !! predictor_id self = Some rec ->
  data_of self (update_data self patch w).2 =
    Some (if negb (is_dict (Predictor.data rec)) then PDict patch
          else dict_update (Predictor.data rec) patch).
Proof.
  intros Hrec. rewrite (update_data_found _ _ _ _ Hrec). unfold data_of. simpl.
  by rewrite lookup_insert_eq.
Qed.

Lemma data_of_update_twice (self : t) (w : world) (rec : Predictor.t)
    (p1 p2 : gmap string pyobj) :
  predictors w !! predictor_id self = Some rec ->
  (is_dict (Predictor.data rec) = false \/ Predictor.data rec = PDict ∅) ->
  data_of self (update_twice self p1 p2 w) = Some (PDict (p2 ∪ p1)).
Proof.
  intros Hrec Hd. unfold update_twice.
  rewrite (update_data_found _ _ _ p1 Hrec). simpl.
  erewrite data_of_update_data; last by (simpl; rewrite lookup_insert_eq).
  simpl. destruct Hd as [Hd | Hd]; rewrite Hd; simpl; [done|].
  by rewrite (right_id_L ∅ (∪)).
Qed.

Lemma learn_args_of_update_twice (self : t) (w : world) (rec : Predictor.t)
    (p1 p2 : gmap string pyobj) :
  predictors w !! predictor_id self = Some rec ->
  (is_dict (Predictor.learn_args rec) = false
   \/ Predictor.learn_args rec = PDict ∅) ->
  learn_args_of self (update_learn_args_twice self p1 p2 w) = Some (PDict (p2 ∪ p1)).
Proof.
  intros Hrec Hd. unfold update_learn_args_twice.
  rewrite (update_learn_args_found _ _ _ p1 Hrec). cbn [snd].
  erewrite update_learn_args_found; last by (simpl; rewrite lookup_insert_eq).
  unfold learn_args_of. simpl. rewrite lookup_insert_eq. simpl.
  destruct Hd as [Hd | Hd]; rewrite Hd; simpl; [done|].
  by rewrite (right_id_L ∅ (∪)).
Qed.

(** C2.  On an existing row, [update_data] and [update_learn_args] succeed
    and leave the row with the column merged: the keys of the patch take the
    values of the patch, the other keys of the old mapping stay, and a column
    that held no mapping holds the patch.  The merged value is what the
    column of the row reads afterwards, and the other of the two columns
    reads as before.  Starting from a column that is no mapping or an empty
    one, [{a:1}] then [{b:2}] leaves [{a:1, b:2}], and [{a:1}] then [{a:3}]
    leaves [{a:3}], in [data] through [update_data] and in [learn_args]
    through [update_learn_args]. *)
Theorem update_data_merges (self : t) (w : world) (rec : Predictor.t)
    (patch : gmap string pyobj) :
  predictors w !! predictor_id self = Some rec ->
  (exists new,
     merged (Predictor.data rec) patch new /\
     update_data self patch w =
       (Ok tt, with_predictors
                 (<[predictor_id self := Predictor.set_data new rec]>
                    (predictors w)) w)
     /\ data_of self (update_data self patch w).2 = Some new
     /\ learn_args_of self (update_data self patch w).2
        = Some (Predictor.learn_args rec))
  /\ (exists new,
     merged (Predictor.learn_args rec) patch new /\
     update_learn_args self patch w =
       (Ok tt, with_predictors
                 (<[predictor_id self := Predictor.set_learn_args new rec]>
                    (predictors w)) w)
     /\ learn_args_of self (update_learn_args self patch w).2 = Some new
     /\ data_of self (update_learn_args self patch w).2
        = Some (Predictor.data rec))
  /\ (is_dict (Predictor.data rec) = false \/ Predictor.data rec = PDict ∅ ->
      data_of self (update_twice self {["a" := PInt 1]} {["b" := PInt 2]} w)
        = Some (PDict {["a" := PInt 1; "b" := PInt 2]})
      /\ data_of self (update_twice self {["a" := PInt 1]} {["a" := PInt 3]} w)
        = Some (PDict {["a" := PInt 3]}))
  /\ (is_dict (Predictor.learn_args rec) = false
      \/ Predictor.learn_args rec = PDict ∅ ->
      learn_args_of self
        (update_learn_args_twice self {["a" := PInt 1]} {["b" := PInt 2]} w)
        = Some (PDict {["a" := PInt 1; "b" := PInt 2]})
      /\ learn_args_of self
           (update_learn_args_twice self {["a" := PInt 1]} {["a" := PInt 3]} w)
        = Some (PDict {["a" := PInt 3]})).
Proof.
  intros Hrec. split; [|split; [|split]].
  - eexists. split; [apply merged_dict_update|].
    split; [by apply update_data_found|].
    rewrite (update_data_found _ _ _ _ Hrec). unfold data_of, learn_args_of.
    simpl. by rewrite lookup_insert_eq.
  - eexists. split; [apply merged_dict_update|].
    split; [by apply update_learn_args_found|].
    rewrite (update_learn_args_found _ _ _ _ Hrec). unfold data_of, learn_args_of.
    simpl. by rewrite lookup_insert_eq.
  - intros Hd. split; by rewrite (data_of_update_twice _ _ _ _ _ Hrec Hd).
  - intros Hd. split; by rewrite (learn_args_of_update_twice _ _ _ _ _ Hrec Hd).
Qed.

Lemma update_data_merges_witness :
  data_of (mk 7) (update_twice (mk 7) {["a" := PInt 1]} {["b" := PInt 2]} sample_world)
    = Some (PDict {["a" := PInt 1; "b" := PInt 2]})
  /\ data_of (mk 7) (update_twice (mk 7) {["a" := PInt 1]} {["a" := PInt 3]} sample_world)
    = Some (PDict {["a" := PInt 3]})
  /\ learn_args_of (mk 7)
       (update_learn_args_twice (mk 7) {["a" := PInt 1]} {["b" := PInt 2]} sample_world)
    = Some (PDict {["a" := PInt 1; "b" := PInt 2]})
  /\ learn_args_of (mk 7)
       (update_learn_args (mk 7) {["lr" := PInt 3]} trained_world).2
    = Some (PDict {["lr" := PInt 3]})
  /\ data_of (mk 7) (update_learn_args (mk 7) {["lr" := PInt 3]} trained_world).2
    = Some (PDict {["a" := PInt 1]}).
Proof.
  destruct (update_data_merges (mk 7) sample_world
              (Predictor.mk (PStr "training") (PStr "y") PNone PNone
                            PNone PNone PNone PNone) ∅ eq_refl)
    as (_ & _ & Hdata & Hlearn).
  destruct (update_data_merges (mk 7) trained_world
              (Predictor.mk (PStr "training") (PStr "y") (PDict {["a" := PInt 1]})
                            PNone PNone PNone PNone PNone)
              {["lr" := PInt 3]} eq_refl)
    as (_ & (new & Hmerged & _ & Hread & Hkeep) & _).
  destruct (Hdata (or_introl eq_refl)) as [Hab Haa].
  destruct (Hlearn (or_introl eq_refl)) as [Hlab _].
  simpl in Hmerged. subst new.
  repeat split; assumption.
Defined.

(** C3.  On an existing row, [status_set] succeeds, always sets [status], and
    when [status_info] is given (is not [None]) the [data] column is that
    value and nothing of the old value; the other columns keep their values.
    After [data == {a:1}], [status_set("complete", {x:1})] leaves
    [data == {x:1}]. *)
Theorem status_set_replaces_data (self : t) (w : world) (rec : Predictor.t)
    (status status_info : pyobj) :
  predictors w !! predictor_id self = Some rec ->
  (exists rec',
     status_set self status status_info w =
       (Ok tt, with_predictors (<[predictor_id self := rec']> (predictors w)) w)
     /\ Predictor.status rec' = status
     /\ (status_info <> PNone -> Predictor.data rec' = status_info)
     /\ (status_info = PNone -> Predictor.data rec' = Predictor.data rec)
     /\ Predictor.to_predict rec' = Predictor.to_predict rec
     /\ Predictor.learn_args rec' = Predictor.learn_args rec
     /\ Predictor.dtype_dict rec' = Predictor.dtype_dict rec
     /\ Predictor.training_phase_current rec' = Predictor.training_phase_current rec
     /\ Predictor.training_phase_total rec' = Predictor.training_phase_total rec
     /\ Predictor.training_phase_name rec' = Predictor.training_phase_name rec)
  /\ (Predictor.data rec = PDict {["a" := PInt 1]} ->
      data_of self
        (status_set self (PStr "complete") (PDict {["x" := PInt 1]}) w).2
        = Some (PDict {["x" := PInt 1]})).
Proof.
  intros Hrec. split.
  - unfold status_set, _get_model_record, commit. run_method. rewrite Hrec. simpl.
    eexists. split; [reflexivity|].
    destruct status_info; simpl; repeat split; try done.
  - intros _. unfold status_set, _get_model_record, commit, data_of. run_method.
    rewrite Hrec. simpl. by rewrite lookup_insert_eq.
Qed.

Lemma status_set_replaces_data_witness :
  data_of (mk 7)
    (status_set (mk 7) (PStr "complete") (PDict {["x" := PInt 1]}) trained_world).2
    = Some (PDict {["x" := PInt 1]}).
Proof.
  apply (status_set_replaces_data (mk 7) trained_world
           (Predictor.mk (PStr "training") (PStr "y") (PDict {["a" := PInt 1]}) PNone
                         PNone PNone PNone PNone)
           (PStr "complete") (PDict {["x" := PInt 1]})).
  - reflexivity.
  - reflexivity.
Defined.

End ModelFacts.

(** ** Properties of [HandlerStorage] *)

Module HandlerFacts.
Import Storage HandlerStorage Spec.

(** C7.  [update_connection_args] raises exactly when the row of the
    integration is absent, and then it is the [KeyError]; when the row exists
    the call succeeds and the row's [data] is the given value, whatever it
    held before: that is what the row of the integration reads afterwards
    and what [get_connection_args] then returns, and the rows of the other
    integrations are as before. *)
Theorem update_connection_args_replaces (self : t) (connection_args : pyobj)
    (w : world) :
  ((exists e, (update_connection_args self connection_args w).1 = Raise e)
     <-> integrations w !! integration_id self = None)
  /\ (integrations w !! integration_id self = None ->
      update_connection_args self connection_args w
        = (Raise (KeyError "Can't find integration"), w))
  /\ (forall rec, integrations w !! integration_id self = Some rec ->
      update_connection_args self connection_args w
        = (Ok tt, with_integrations
                    (<[integration_id self := Integration.mk connection_args]>
                       (integrations w)) w)
      /\ Integration.data <$>
           integrations (update_connection_args self connection_args w).2
             !! integration_id self
         = Some connection_args
      /\ get_connection_args self
           (update_connection_args self connection_args w).2
         = (Ok connection_args,
            (update_connection_args self connection_args w).2)
      /\ (forall id, id <> integration_id self ->
            integrations (update_connection_args self connection_args w).2 !! id
            = integrations w !! id)
      /\ predictors (update_connection_args self connection_args w).2
         = predictors w).
Proof.
  unfold get_connection_args, update_connection_args. run_method.
  destruct (integrations w !! integration_id self) as [rec|] eqn:Hrec; simpl.
  - split; [|split].
    + split; [intros [e He]; discriminate | discriminate].
    + discriminate.
    + intros rec' [= <-]. rewrite lookup_insert_eq. simpl.
      repeat split; try done.
      intros id Hid. by rewrite lookup_insert_ne.
  - split; [|split].
    + split; [done | intros _; by eexists].
    + done.
    + discriminate.
Qed.

Lemma update_connection_args_replaces_witness :
  update_connection_args (mk 1 false) (PDict {["port" := PInt 5432]}) connected_world
    = (Ok tt, with_integrations
                {[ 1%Z := Integration.mk (PDict {["port" := PInt 5432]}) ]}
                connected_world)
  /\ Integration.data <$>
       integrations
         (update_connection_args (mk 1 false) (PDict {["port" := PInt 5432]})
            connected_world).2 !! 1%Z
     = Some (PDict {["port" := PInt 5432]})
  /\ update_connection_args (mk 2 false) (PDict ∅) connected_world
      = (Raise (KeyError "Can't find integration"), connected_world).
Proof.
  split; [|split].
  - destruct (update_connection_args_replaces (mk 1 false)
                (PDict {["port" := PInt 5432]}) connected_world) as (_ & _ & H).
    destruct (H _ eq_refl) as [Heq _]. rewrite Heq. reflexivity.
  - destruct (update_connection_args_replaces (mk 1 false)
                (PDict {["port" := PInt 5432]}) connected_world) as (_ & _ & H).
    destruct (H _ eq_refl) as (_ & Hread & _). exact Hread.
  - destruct (update_connection_args_replaces (mk 2 false) (PDict ∅)
                connected_world) as (_ & H & _).
    exact (H eq_refl).
Defined.

Section Emptiness.
Variable service : list string.

Lemma is_empty_loop_true (es : Fs.folder) :
  is_empty_loop service es = true <-> Forall (service_file service) es.
Proof.
  induction es as [|[name n] es IH]; simpl.
  - split; [constructor | done].
  - destruct (is_file n) eqn:Hf; simpl.
    + case_bool_decide as Hin.
      * rewrite IH. split.
        -- intros H. constructor; [done | done].
        -- by inversion 1.
      * split; [done|]. inversion 1 as [|? ? [_ Hs]]. by simpl in Hs.
    + split; [done|]. inversion 1 as [|? ? [Hs _]]. simpl in Hs. congruence.
Qed.

(** C8.  [is_empty] answers without changing anything, and answers [True]
    exactly when every entry of the local folder is a regular file under a
    reserved name; so it is [True] on service files alone, and [False] as soon
    as the folder holds a file under another name or an entry that is no
    regular file. *)
Theorem is_empty_iff_only_service_files (self : t) (w : world) :
  exists b : bool,
    is_empty service self w = (Ok b, w)
    /\ (b = true <-> Forall (service_file service) (folder w))
    /\ (forall before name n after,
          folder w = before ++ (name, n) :: after ->
          name ∉ service \/ is_file n = false ->
          b = false).
Proof.
  exists (is_empty_loop service (folder w)). split; [reflexivity|]. split.
  - apply is_empty_loop_true.
  - intros before name n after Hw Hbad.
    destruct (is_empty_loop service (folder w)) eqn:He; [|done].
    apply is_empty_loop_true in He. rewrite Hw in He.
    apply Forall_app in He as [_ He]. inversion He as [|? ? [Hf Hs]]. simpl in *.
    destruct Hbad; [done | congruence].
Qed.

End Emptiness.

Lemma is_empty_iff_only_service_files_witness :
  is_empty sample_service (mk 1 false) locked_world = (Ok true, locked_world)
  /\ is_empty sample_service (mk 1 false) handler_world = (Ok false, handler_world).
Proof.
  split.
  - destruct (is_empty_iff_only_service_files sample_service (mk 1 false)
                locked_world) as (b & Hb & Htrue & _).
    rewrite Hb. f_equal. f_equal. apply Htrue.
    repeat constructor; simpl; by refine (bool_decide_eq_true_1 _ _).
  - destruct (is_empty_iff_only_service_files sample_service (mk 1 false)
                handler_world) as (b & Hb & _ & Hfalse).
    rewrite Hb. f_equal. f_equal.
    apply (Hfalse [("dir.lock", File [])] "model.pkl" (File [Byte.x6d; Byte.x31])
             [("weights", Dir [("part0", File [Byte.x77]);
                               ("last_modified.txt", File [Byte.x30]);
                               ("empty", Dir [])])]).
    + reflexivity.
    + left. by refine (bool_decide_eq_false_1 _ _).
Defined.

Lemma pushes_calls_app (w w' : world) (cs : list call) :
  calls w' = calls w ++ cs ->
  Forall (fun c => is_push c = false) cs ->
  pushes w' = pushes w.
Proof.
  intros Hc Hcs. unfold pushes. rewrite Hc, filter_app. clear Hc.
  replace (filter _ cs) with (@nil call); [by rewrite app_nil_r|].
  induction Hcs as [|c cs Hp _ IH]; [done|].
  rewrite filter_cons_False; [done | by rewrite Hp].
Qed.





(** C10.  The methods whose body is [...] return [None] and leave the state
    as it was: the tables, the JSON values, the local folder and the calls
    received by the backend. *)
Theorem stub_methods_return_none (ms : ModelStorage.t) (hs : t) (name : string)
    (w : world) :
  ModelStorage.file_list ms w = (Ok PNone, w)
  /\ ModelStorage.file_del ms name w = (Ok PNone, w)
  /\ ModelStorage.json_list ms w = (Ok PNone, w)
  /\ ModelStorage.json_del ms name w = (Ok PNone, w)
  /\ file_list hs w = (Ok PNone, w)
  /\ file_del hs name w = (Ok PNone, w)
  /\ json_list hs w = (Ok PNone, w)
  /\ json_del hs name w = (Ok PNone, w).
Proof. repeat split. Qed.

(** *** Names handed to the backend *)

Lemma new_calls_app (w w' : world) (cs : list call) :
  calls w' = calls w ++ cs -> new_calls w w' = cs.
Proof. intros H. unfold new_calls. rewrite H. apply drop_app_length. Qed.

(** C6, refuted: [file_set] called with the name ["My File"] and no content
    hands ["My File"] to the backend, and the normalized name is ["my_file"]. *)
Lemma file_keys_not_normalized : ~ file_keys_normalized.
Proof.
  intros H.
  destruct (H (mk 1 true) "My File" [] handler_world) as [_ Hset].
  vm_compute in Hset. by inversion Hset.
Qed.

(** C6, amended.  [file_get] and [file_set] hand the name to the backend as
    it was given: [file_get] pulls and reads under it, [file_set] writes under
    it and, when it pushes, pushes it.  The name is normalized by
    [folder_get] and [folder_sync] alone. *)
Theorem file_ops_pass_name_unchanged (self : t) (name : string)
    (content : bytes) (w : world) :
  new_calls w (file_get self name w).2 = [PullPath name; FileGet name]
  /\ (new_calls w (file_set self name content w).2 = [FileSet name content]
      \/ new_calls w (file_set self name content w).2
           = [FileSet name content; PushPath name])
  /\ new_calls w (folder_get self name w).2 = [PullPath (Name.convert_name name)]
  /\ new_calls w (folder_sync self name w).2
       = if is_temporal self then [] else [PushPath (Name.convert_name name)].
Proof.
  repeat split.
  - apply new_calls_app. unfold file_get, fs_pull_path, fs_file_get. run_method.
    by rewrite <- app_assoc.
  - unfold file_set, fs_file_set, fs_push_path. run_method.
    destruct (match find_entry name (folder w) with
              | Some (Dir _) => None
              | _ => Some (set_entry name (File content) (folder w))
              end); simpl.
    + destruct (is_temporal self); simpl.
      * left. by apply new_calls_app.
      * right. apply new_calls_app. simpl. by rewrite <- app_assoc.
    + left. by apply new_calls_app.
  - apply new_calls_app. unfold folder_get, fs_pull_path. by run_method.
  - unfold folder_sync, fs_push_path. destruct (is_temporal self); run_method.
    + apply new_calls_app. by rewrite app_nil_r.
    + by apply new_calls_app.
Qed.

(** *** Export and import of the folder *)

Section RoundTrip.
Variable service : list string.

Lemma export_files_walks (self : t) (w : world) :
  is_empty_loop service (folder w) = false ->
  export_files service self w =
    (Ok (Some (members_of service [] (Dir (folder w)))),
     with_calls (calls w ++ [PullPath ""]) w).
Proof.
  intros He. unfold export_files, is_empty, folder_get, fs_pull_path.
  unfold mbind, mret, M_bind, M_ret, bind, ret, log, get_world, modify.
  by rewrite He.
Qed.

Lemma import_files_extracts (self : t) (members : archive) (w : world)
    (es : Fs.folder) :
  extractall [] members (folder w) = (true, es) ->
  exists w', import_files self (Some members) w = (Ok tt, w') /\ folder w' = es.
Proof.
  intros He. unfold import_files, folder_get, folder_sync, fs_pull_path, fs_push_path.
  unfold mbind, mret, M_bind, M_ret, bind, ret, raise, log, get_world, modify.
  change (fs_get_path (Name.convert_name "")) with (@nil string).
  cbn beta iota zeta. cbn [folder with_calls]. rewrite He.
  destruct (is_temporal self); eexists; split; reflexivity.
Qed.

Lemma members_of_folder (es : Fs.folder) (p : Fs.path) (c : bytes) :
  wf es = true ->
  (p, c) ∈ members_of service [] (Dir es)
    <-> read_file p es = Some c /\ (basename p ∉ service).
Proof.
  intros Hwf. rewrite (FsFacts.members_of_spec service (Dir es) Hwf [] p c).
  rewrite FsFacts.read_file_resolve. split.
  - intros (q & _ & -> & Hr & Hs). done.
  - intros [Hr Hs]. exists p. repeat split; try done.
    intros ->. discriminate.
Qed.

(** C1.  On a folder that is not empty, [export_files] returns an archive and
    leaves the folder as it was; the members of the archive are exactly the
    files of the folder whose name is not reserved, each under its relative
    path with its content.  [import_files] on that archive succeeds: into the
    folder it was exported from it leaves every file as it was, and into an
    empty folder it leaves exactly the files whose name is not reserved, under
    the same relative paths with the same contents. *)
Theorem export_import_round_trip (self : t) (w : world) :
  wf (folder w) = true ->
  (is_empty service self w).1 = Ok false ->
  exists (ar : archive) (w1 : world),
    export_files service self w = (Ok (Some ar), w1)
    /\ folder w1 = folder w
    /\ (forall p c, (p, c) ∈ ar
          <-> read_file p (folder w) = Some c /\ (basename p ∉ service))
    /\ (exists w2,
          import_files self (Some ar) w1 = (Ok tt, w2)
          /\ wf (folder w2) = true
          /\ forall p, read_file p (folder w2) = read_file p (folder w))
    /\ (forall w0, folder w0 = [] ->
          exists w2,
            import_files self (Some ar) w0 = (Ok tt, w2)
            /\ wf (folder w2) = true
            /\ forall p c, read_file p (folder w2) = Some c
                 <-> read_file p (folder w) = Some c /\ (basename p ∉ service)).
Proof.
  intros Hwf He. unfold is_empty in He. run_method. injection He as He.
  pose proof (fun p c => members_of_folder (folder w) p c Hwf) as Har.
  exists (members_of service [] (Dir (folder w))),
         (with_calls (calls w ++ [PullPath ""]) w).
  split; [by apply export_files_walks|]. split; [done|]. split; [done|]. split.
  - destruct (FsFacts.extractall_covered (members_of service [] (Dir (folder w)))
                (folder w) (folder w) Hwf (FsFacts.covers_refl _))
      as (es & Hex & Hwf' & _ & Hread).
    { intros p c Hin. by apply Har in Hin as [? _]. }
    destruct (import_files_extracts self _
                (with_calls (calls w ++ [PullPath ""]) w) es Hex)
      as (w2 & Himp & Hfolder).
    exists w2. rewrite Hfolder. split; [done|]. split; [done|].
    intros p. destruct (read_file p es) as [c|] eqn:Hp.
    + apply Hread in Hp as [Hin|Hp]; [|done].
      by apply Har in Hin as [-> _].
    + destruct (read_file p (folder w)) as [c|] eqn:Hp'; [|done].
      assert (read_file p es = Some c) as Hc by (apply Hread; by right).
      congruence.
  - intros w0 Hw0.
    destruct (FsFacts.extractall_covered (members_of service [] (Dir (folder w)))
                [] (folder w) FsFacts.wf_nil (FsFacts.covers_empty _))
      as (es & Hex & Hwf' & _ & Hread).
    { intros p c Hin. by apply Har in Hin as [? _]. }
    rewrite <- Hw0 in Hex.
    destruct (import_files_extracts self _ w0 es Hex) as (w2 & Himp & Hfolder).
    exists w2. rewrite Hfolder. split; [done|]. split; [done|].
    intros p c. rewrite Hread, FsFacts.read_file_nil, Har. split.
    + by intros [H|H].
    + by left.
Qed.

End RoundTrip.

Lemma export_import_round_trip_witness :
  exists (ar : archive) (w1 : world),
    export_files sample_service (mk 1 false) handler_world = (Ok (Some ar), w1)
    /\ (["weights"; "part0"], [Byte.x77]) ∈ ar
    /\ forall w0, folder w0 = [] ->
         exists w2,
           import_files (mk 1 false) (Some ar) w0 = (Ok tt, w2)
           /\ read_file ["weights"; "part0"] (folder w2) = Some [Byte.x77]
           /\ read_file ["dir.lock"] (folder w2) = None.
Proof.
  destruct (export_import_round_trip sample_service (mk 1 false) handler_world)
    as (ar & w1 & Hex & _ & Har & _ & Himp); [reflexivity | reflexivity |].
  exists ar, w1. split; [exact Hex|]. split.
  - apply Har. split; [reflexivity|]. by refine (bool_decide_eq_false_1 _ _).
  - intros w0 Hw0. destruct (Himp w0 Hw0) as (w2 & Hw2 & _ & Hread).
    exists w2. split; [exact Hw2|]. split.
    + apply Hread. split; [reflexivity|]. by refine (bool_decide_eq_false_1 _ _).
    + destruct (read_file ["dir.lock"] (folder w2)) as [c|] eqn:Hc; [|reflexivity].
      apply Hread in Hc as [_ Hs]. exfalso. apply Hs.
      vm_compute. apply list_elem_of_here.
Defined.

End HandlerFacts.

(** ** Further properties of [ModelStorage] *)

Module ModelMore.
Import Storage ModelStorage Spec Vocabulary.

Lemma with_predictors_same (w : world) : with_predictors (predictors w) w = w.
Proof. by destruct w. Qed.

Lemma commit_same (self : t) (rec : Predictor.t) (w : world) :
  predictors w !! predictor_id self = Some rec ->
  with_predictors (<[predictor_id self := rec]> (predictors w)) w = w.
Proof. intros H. rewrite insert_id by done. apply with_predictors_same. Qed.

(** X5.  On a predictor that has no row, the two merging updates raise the
    [KeyError] of [_get_model_record], and the methods that do not ask for
    the row to exist raise the [AttributeError] of reading [None]; none of
    them changes the state. *)
Theorem missing_model_record (self : t) (w : world) (patch : gmap string pyobj)
    (status status_info columns : pyobj) :
  predictors w !! predictor_id self = None ->
  update_data self patch w = (Raise (KeyError "Model does not exists"), w)
  /\ update_learn_args self patch w = (Raise (KeyError "Model does not exists"), w)
  /\ get_info self w = (Raise AttributeError, w)
  /\ status_set self status status_info w = (Raise AttributeError, w)
  /\ training_state_get self w = (Raise AttributeError, w)
  /\ columns_get self w = (Raise AttributeError, w)
  /\ columns_set self columns w = (Raise AttributeError, w).
Proof.
  intros Hrec.
  unfold update_data, update_learn_args, get_info, status_set, training_state_get,
    columns_get, columns_set, _get_model_record.
  run_method. rewrite Hrec. simpl. done.
Qed.

Lemma missing_model_record_witness :
  update_data (mk 8) {["a" := PInt 1]} sample_world
    = (Raise (KeyError "Model does not exists"), sample_world)
  /\ get_info (mk 8) sample_world = (Raise AttributeError, sample_world).
Proof.
  destruct (missing_model_record (mk 8) sample_world {["a" := PInt 1]}
              PNone PNone PNone eq_refl) as (Hupd & _ & Hinfo & _).
  split; [exact Hupd | exact Hinfo].
Defined.

Lemma training_state_set_found (self : t) (w : world) (rec : Predictor.t)
    (c n m : pyobj) :
  predictors w !! predictor_id self = Some rec ->
  training_state_set self c n m w =
    (Ok tt,
     with_predictors
       (<[predictor_id self :=
            Predictor.mk (Predictor.status rec) (Predictor.to_predict rec)
              (Predictor.data rec) (Predictor.learn_args rec)
              (Predictor.dtype_dict rec)
              (given_or c (Predictor.training_phase_current rec))
              (given_or n (Predictor.training_phase_total rec))
              (given_or m (Predictor.training_phase_name rec))]>
          (predictors w)) w).
Proof.
  intros Hrec. unfold training_state_set, _get_model_record, commit, given_or.
  run_method. rewrite Hrec. simpl.
  destruct rec. by destruct (is_not_none c), (is_not_none n), (is_not_none m).
Qed.

(** X6.  On an existing row [training_state_set] succeeds, and the
    [training_state_get] that follows returns, in the order current, total,
    name, each argument that was given and the old value of each that was
    not; the other columns of the row and the other rows stay as they
    were. *)
Theorem training_state_partial_update (self : t) (w : world)
    (rec : Predictor.t) (current_state_num total_states state_name : pyobj) :
  predictors w !! predictor_id self = Some rec ->
  exists w' rec',
    training_state_set self current_state_num total_states state_name w = (Ok tt, w')
    /\ training_state_get self w' =
         (Ok (PList
                [given_or current_state_num (Predictor.training_phase_current rec);
                 given_or total_states (Predictor.training_phase_total rec);
                 given_or state_name (Predictor.training_phase_name rec)]), w')
    /\ predictors w' !! predictor_id self = Some rec'
    /\ Predictor.status rec' = Predictor.status rec
    /\ Predictor.to_predict rec' = Predictor.to_predict rec
    /\ Predictor.data rec' = Predictor.data rec
    /\ Predictor.learn_args rec' = Predictor.learn_args rec
    /\ Predictor.dtype_dict rec' = Predictor.dtype_dict rec
    /\ (forall id, id <> predictor_id self ->
          predictors w' !! id = predictors w !! id).
Proof.
  intros Hrec. eexists _, _.
  split; [by apply training_state_set_found|].
  split; [|split; [simpl; by rewrite lookup_insert_eq|]].
  - unfold training_state_get, _get_model_record. run_method.
    by rewrite lookup_insert_eq.
  - repeat split; try done.
    intros id Hid. simpl. by rewrite lookup_insert_ne.
Qed.

Lemma training_state_partial_update_witness :
  training_state_get (mk 7)
    (training_state_set (mk 7) (PInt 2) PNone PNone fitting_world).2
  = (Ok (PList [PInt 2; PInt 10; PStr "fit"]),
     (training_state_set (mk 7) (PInt 2) PNone PNone fitting_world).2).
Proof.
  destruct (training_state_partial_update (mk 7) fitting_world
              (Predictor.mk (PStr "training") (PStr "y") PNone PNone PNone
                            (PInt 1) (PInt 10) (PStr "fit"))
              (PInt 2) PNone PNone eq_refl) as (w' & rec' & Hset & Hget & _).
  rewrite Hset. exact Hget.
Defined.

(** X7.  [training_state_set] called with no argument given does nothing and
    never fails, whether the row exists or not; with an argument given and no
    row it raises [AttributeError]. *)
Theorem training_state_set_nothing (self : t) (w : world)
    (current_state_num total_states state_name : pyobj) :
  training_state_set self PNone PNone PNone w = (Ok tt, w)
  /\ (predictors w !! predictor_id self = None ->
      is_not_none current_state_num || is_not_none total_states
        || is_not_none state_name = true ->
      training_state_set self current_state_num total_states state_name w
        = (Raise AttributeError, w)).
Proof.
  split.
  - destruct (predictors w !! predictor_id self) as [rec|] eqn:Hrec.
    + rewrite (training_state_set_found _ _ _ _ _ _ Hrec). unfold given_or. simpl.
      f_equal. destruct rec. by apply (commit_same self).
    + unfold training_state_set, _get_model_record. run_method. by rewrite Hrec.
  - intros Hrec Hgiven. unfold training_state_set, _get_model_record. run_method.
    rewrite Hrec. simpl. by rewrite Hgiven.
Qed.

Lemma training_state_set_nothing_witness :
  training_state_set (mk 8) PNone PNone PNone sample_world = (Ok tt, sample_world)
  /\ training_state_set (mk 7) PNone PNone PNone fitting_world = (Ok tt, fitting_world)
  /\ training_state_set (mk 8) (PInt 1) PNone PNone sample_world
     = (Raise AttributeError, sample_world).
Proof.
  split; [|split].
  - exact (proj1 (training_state_set_nothing (mk 8) sample_world PNone PNone PNone)).
  - exact (proj1 (training_state_set_nothing (mk 7) fitting_world PNone PNone PNone)).
  - exact (proj2 (training_state_set_nothing (mk 8) sample_world (PInt 1) PNone PNone)
             eq_refl eq_refl).
Defined.

(** X8.  On an existing row [columns_set] succeeds and [columns_get] then
    returns the very value that was set; the other columns of the row and the
    other rows stay as they were. *)
Theorem columns_set_then_get (self : t) (w : world) (rec : Predictor.t)
    (columns : pyobj) :
  predictors w !! predictor_id self = Some rec ->
  exists w',
    columns_set self columns w = (Ok tt, w')
    /\ columns_get self w' = (Ok columns, w')
    /\ predictors w' !! predictor_id self
         = Some (Predictor.set_dtype_dict columns rec)
    /\ (forall id, id <> predictor_id self ->
          predictors w' !! id = predictors w !! id).
Proof.
  intros Hrec. eexists. split; [|split; [|split]].
  - unfold columns_set, _get_model_record, commit. run_method. by rewrite Hrec.
  - unfold columns_get, _get_model_record. run_method. by rewrite lookup_insert_eq.
  - simpl. by rewrite lookup_insert_eq.
  - intros id Hid. simpl. by rewrite lookup_insert_ne.
Qed.

Lemma columns_set_then_get_witness :
  (columns_get (mk 7)
     (columns_set (mk 7) (PDict {["x" := PStr "integer"]}) sample_world).2).1
  = Ok (PDict {["x" := PStr "integer"]}).
Proof.
  destruct (columns_set_then_get (mk 7) sample_world
              (Predictor.mk (PStr "training") (PStr "y") PNone PNone
                            PNone PNone PNone PNone)
              (PDict {["x" := PStr "integer"]}) eq_refl) as (w' & Hset & Hget & _).
  rewrite Hset. simpl. by rewrite Hget.
Defined.

Lemma merge_twice (field : pyobj) (p1 p2 : gmap string pyobj) :
  (let once := if negb (is_dict field) then PDict p1 else dict_update field p1 in
   if negb (is_dict once) then PDict p2 else dict_update once p2)
  = if negb (is_dict field) then PDict (p2 ∪ p1) else dict_update field (p2 ∪ p1).
Proof. destruct field; simpl; try done. by rewrite (assoc_L (∪)). Qed.

(** X9.  On an existing row two [update_data] in a row are one [update_data]
    with the two patches merged, the later patch winning; so are two
    [update_learn_args].  Applying the same patch twice is applying it
    once. *)
Theorem update_data_twice_is_once (self : t) (w : world) (rec : Predictor.t)
    (p1 p2 : gmap string pyobj) :
  predictors w !! predictor_id self = Some rec ->
  update_data self p2 (update_data self p1 w).2 = update_data self (p2 ∪ p1) w
  /\ update_learn_args self p2 (update_learn_args self p1 w).2
     = update_learn_args self (p2 ∪ p1) w
  /\ update_data self p1 (update_data self p1 w).2 = update_data self p1 w.
Proof.
  intros Hrec.
  assert (forall q1 q2,
    update_data self q2 (update_data self q1 w).2 = update_data self (q2 ∪ q1) w)
    as Hdata.
  { intros q1 q2.
    rewrite (ModelFacts.update_data_found _ _ _ q1 Hrec),
            (ModelFacts.update_data_found _ _ _ (q2 ∪ q1) Hrec).
    cbn [snd].
    erewrite ModelFacts.update_data_found; last by (simpl; rewrite lookup_insert_eq).
    f_equal. unfold with_predictors. simpl. f_equal.
    rewrite insert_insert_eq. f_equal.
    pose proof (merge_twice (Predictor.data rec) q1 q2) as H. simpl in H.
    destruct rec. unfold Predictor.set_data. simpl in *. by rewrite H. }
  split; [apply Hdata|]. split.
  - rewrite (ModelFacts.update_learn_args_found _ _ _ p1 Hrec),
            (ModelFacts.update_learn_args_found _ _ _ (p2 ∪ p1) Hrec).
    cbn [snd].
    erewrite ModelFacts.update_learn_args_found;
      last by (simpl; rewrite lookup_insert_eq).
    f_equal. unfold with_predictors. simpl. f_equal.
    rewrite insert_insert_eq. f_equal.
    pose proof (merge_twice (Predictor.learn_args rec) p1 p2) as H. simpl in H.
    destruct rec. unfold Predictor.set_learn_args. simpl in *. by rewrite H.
  - rewrite Hdata. by rewrite (idemp_L (∪)).
Qed.

Lemma update_data_twice_is_once_witness :
  update_data (mk 7) {["b" := PInt 2]}
    (update_data (mk 7) {["a" := PInt 1]} trained_world).2
  = update_data (mk 7) ({["b" := PInt 2]} ∪ {["a" := PInt 1]}) trained_world.
Proof.
  destruct (update_data_twice_is_once (mk 7) trained_world
              (Predictor.mk (PStr "training") (PStr "y") (PDict {["a" := PInt 1]})
                            PNone PNone PNone PNone PNone)
              {["a" := PInt 1]} {["b" := PInt 2]} eq_refl) as [H _].
  exact H.
Defined.

(** X10.  On an existing row [get_info] changes nothing and returns the
    mapping of [status], [to_predict] and [data] of the row, and no other
    key; after a [status_set] with a [status_info] it shows the new status and
    the [status_info] as [data]. *)
Theorem get_info_shows_row (self : t) (w : world) (rec : Predictor.t)
    (status status_info : pyobj) :
  predictors w !! predictor_id self = Some rec ->
  get_info self w =
    (Ok (PDict {[ "status" := Predictor.status rec;
                  "to_predict" := Predictor.to_predict rec;
                  "data" := Predictor.data rec ]}), w)
  /\ (status_info <> PNone ->
      (get_info self (status_set self status status_info w).2).1 =
        Ok (PDict {[ "status" := status;
                     "to_predict" := Predictor.to_predict rec;
                     "data" := status_info ]})).
Proof.
  intros Hrec. split.
  - unfold get_info, _get_model_record. run_method. by rewrite Hrec.
  - intros Hinfo. unfold get_info, status_set, _get_model_record, commit.
    run_method. rewrite Hrec. simpl. rewrite lookup_insert_eq.
    by destruct status_info.
Qed.

Lemma get_info_shows_row_witness :
  (get_info (mk 7)
     (status_set (mk 7) (PStr "complete") (PDict {["x" := PInt 1]}) trained_world).2).1
  = Ok (PDict {[ "status" := PStr "complete"; "to_predict" := PStr "y";
                 "data" := PDict {["x" := PInt 1]} ]}).
Proof.
  destruct (get_info_shows_row (mk 7) trained_world
              (Predictor.mk (PStr "training") (PStr "y") (PDict {["a" := PInt 1]})
                            PNone PNone PNone PNone PNone)
              (PStr "complete") (PDict {["x" := PInt 1]}) eq_refl) as [_ H].
  apply H. discriminate.
Defined.

(** X21.  The calls a model storage makes to its file backend: [file_get]
    reads and [file_set] writes under the name as it was given, without a
    pull or a push; [folder_get] pulls and [folder_sync] pushes the
    normalized name, and there is no mode in which [folder_sync] does not
    push. *)
Theorem model_storage_backend_calls (self : t) (name : string) (content : bytes)
    (w : world) :
  new_calls w (file_get self name w).2 = [FileGet name]
  /\ new_calls w (file_set self name content w).2 = [FileSet name content]
  /\ new_calls w (folder_get self name w).2 = [PullPath (Name.convert_name name)]
  /\ new_calls w (folder_sync self name w).2 = [PushPath (Name.convert_name name)]
  /\ (folder_get self name w).1 = Ok (fs_get_path (Name.convert_name name)).
Proof.
  repeat split.
  - apply HandlerFacts.new_calls_app. unfold file_get, fs_file_get. by run_method.
  - apply HandlerFacts.new_calls_app. unfold file_set, fs_file_set. run_method.
    by destruct (match find_entry name (folder w) with
                 | Some (Dir _) => None
                 | _ => Some (set_entry name (File content) (folder w))
                 end).
  - apply HandlerFacts.new_calls_app. unfold folder_get, fs_pull_path. by run_method.
  - apply HandlerFacts.new_calls_app. unfold folder_sync, fs_push_path. by run_method.
Qed.

End ModelMore.

(** ** Further properties of extraction *)

Module FsMore.
Import Fs Spec Vocabulary FsFacts.

Lemma write_file_cons (name r0 : string) (rs : path) (c : bytes) (t : folder) :
  write_file (name :: r0 :: rs) c t =
    match find_entry name t with
    | Some (File _) => None
    | Some (Dir sub) =>
        match write_file (r0 :: rs) c sub with
        | Some sub' => Some (set_entry name (Dir sub') t)
        | None => None
        end
    | None =>
        match write_file (r0 :: rs) c [] with
        | Some sub' => Some (set_entry name (Dir sub') t)
        | None => None
        end
    end.
Proof. reflexivity. Qed.

(** A member that was extracted is read back, and every other file reads as
    before. *)
Lemma write_file_read (p : path) :
  forall (c : bytes) (t t' : folder),
    write_file p c t = Some t' ->
    forall q, read_file q t' = if decide (q = p) then Some c else read_file q t.
Proof.
  induction p as [|name rest IH]; intros c t t' Hw; [done|].
  destruct rest as [|r0 rs].
  - simpl in Hw.
    assert (t' = set_entry name (File c) t
            /\ forall s, find_entry name t <> Some (Dir s)) as [-> Hnodir].
    { destruct (find_entry name t) as [[|s]|]; try done;
        injection Hw as <-; by split. }
    intros q. rewrite read_file_set_entry. destruct q as [|nm r].
    + by rewrite decide_False.
    + destruct (decide (nm = name)) as [->|Hne].
      * destruct r as [|r1 r2]; simpl.
        -- by rewrite decide_True.
        -- rewrite decide_False by done.
           unfold read_file. rewrite resolve_cons.
           destruct (find_entry name t) as [[|s]|] eqn:Ht;
             first [done | by destruct (Hnodir s)].
      * rewrite decide_False; [done | congruence].
  - rewrite write_file_cons in Hw.
    assert (exists s s', write_file (r0 :: rs) c s = Some s'
                         /\ t' = set_entry name (Dir s') t
                         /\ forall r, read_file (name :: r) t = read_file r s)
      as (s & s' & Hs & -> & Hread).
    { destruct (find_entry name t) as [[c1|s]|] eqn:Ht; [discriminate Hw| |].
      - destruct (write_file (r0 :: rs) c s) as [s'|] eqn:Hs; [|done].
        injection Hw as <-. exists s, s'. repeat split; try done.
        intros r. unfold read_file. by rewrite resolve_cons, Ht.
      - destruct (write_file (r0 :: rs) c []) as [s'|] eqn:Hs; [|done].
        injection Hw as <-. exists [], s'. repeat split; try done.
        intros r. unfold read_file. rewrite resolve_cons, Ht. by destruct r. }
    intros q. rewrite read_file_set_entry. destruct q as [|nm r].
    + by rewrite decide_False.
    + destruct (decide (nm = name)) as [->|Hne].
      * fold (read_file r s'). rewrite (IH _ _ _ Hs), Hread.
        destruct (decide (r = r0 :: rs)) as [->|Hr].
        -- by rewrite decide_True.
        -- rewrite decide_False; [done | congruence].
      * rewrite decide_False; [done | congruence].
Qed.

Lemma write_file_wf (p : path) :
  forall (c : bytes) (t t' : folder),
    wf t = true -> write_file p c t = Some t' -> wf t' = true.
Proof.
  induction p as [|name rest IH]; intros c t t' Hwf Hw; [done|].
  destruct rest as [|r0 rs].
  - simpl in Hw.
    destruct (find_entry name t) as [[|s]|]; try done;
      injection Hw as <-; by apply wf_set_entry.
  - rewrite write_file_cons in Hw.
    destruct (find_entry name t) as [[c1|s]|] eqn:Ht; [discriminate Hw| |].
    + destruct (write_file (r0 :: rs) c s) as [s'|] eqn:Hs; [|done].
      injection Hw as <-. apply wf_set_entry; [done|].
      apply (IH c s s'); [|done]. by apply (wf_find_entry name (Dir s) t).
    + destruct (write_file (r0 :: rs) c []) as [s'|] eqn:Hs; [|done].
      injection Hw as <-. apply wf_set_entry; [done|].
      by apply (IH c [] s').
Qed.

(** After a complete extraction a file holds the content of the last member
    stored under its path, and every path no member is stored under reads as
    before. *)
Lemma extractall_read (members : archive) :
  forall t t' : folder,
    extractall [] members t = (true, t') ->
    forall q, read_file q t' =
              match last_member q members with
              | Some c => Some c
              | None => read_file q t
              end.
Proof.
  induction members as [|[p c] members IH]; intros t t' He q.
  - simpl in He. by injection He as <-.
  - cbn [extractall app] in He.
    destruct (write_file p c t) as [t1|] eqn:Hw; [|done].
    rewrite (IH _ _ He q). cbn [last_member].
    destruct (last_member q members); [done|].
    rewrite (write_file_read _ _ _ _ Hw).
    destruct (decide (p = q)) as [->|Hne].
    + by rewrite decide_True.
    + rewrite decide_False; [done | congruence].
Qed.

Lemma extractall_wf (members : archive) :
  forall t t' ok, wf t = true -> extractall [] members t = (ok, t') -> wf t' = true.
Proof.
  induction members as [|[p c] members IH]; intros t t' ok Hwf He.
  - simpl in He. by injection He as _ <-.
  - cbn [extractall app] in He.
    destruct (write_file p c t) as [t1|] eqn:Hw.
    + apply (IH t1 t' ok); [|done]. by apply (write_file_wf p c t).
    + by injection He as _ <-.
Qed.


End FsMore.

(** ** Further properties of the exported members *)

Module MembersMore.
Import Fs Spec Vocabulary FsFacts.

Section Members.
Variable service : list string.

Lemma flat_map_nested {A B C} (f : A -> list B) (g : B -> list C) (l : list A) :
  flat_map g (flat_map f l) = flat_map (fun x => flat_map g (f x)) l.
Proof.
  induction l as [|x l IH]; simpl; [done|]. by rewrite flat_map_app, IH.
Qed.

(** The members of a directory: its own files first, then the members of its
    entries. *)
Lemma members_of_entries (root : path) (es : folder) :
  members_of service root (Dir es) =
    HandlerStorage.zip_files service root
      (omap (fun e => match e.2 with File c => Some (e.1, c) | Dir _ => None end) es)
    ++ flat_map (fun e => members_of service (root ++ [e.1]) e.2) es.
Proof.
  unfold members_of. cbn [os_walk flat_map]. f_equal. apply flat_map_nested.
Qed.

Lemma zip_files_paths (root : path) (es : folder) (p : path) :
  p ∈ (HandlerStorage.zip_files service root
         (omap (fun e => match e.2 with File c => Some (e.1, c) | Dir _ => None end)
               es)).*1 ->
  exists name, p = root ++ [name] /\ name ∈ es.*1.
Proof.
  intros ([p' c] & -> & Hin)%list_elem_of_fmap. simpl.
  unfold HandlerStorage.zip_files in Hin.
  apply elem_of_flat_map in Hin as ([name c'] & Hin & Hp).
  apply list_elem_of_omap in Hin as ([n x] & Hin & Hx). simpl in Hx.
  destruct x as [c''|]; [|done]. injection Hx as -> ->.
  case_bool_decide; [by apply elem_of_nil in Hp|].
  apply list_elem_of_singleton in Hp as [= -> ->].
  eexists. split; [reflexivity|].
  apply list_elem_of_fmap. eexists. split; [|exact Hin]. reflexivity.
Qed.

Lemma zip_files_nodup (root : path) (es : folder) :
  NoDup es.*1 ->
  NoDup (HandlerStorage.zip_files service root
           (omap (fun e => match e.2 with File c => Some (e.1, c) | Dir _ => None end)
                 es)).*1.
Proof.
  induction es as [|[n x] es IH]; intros Hnd; [constructor|].
  apply NoDup_cons in Hnd as [Hn Hnd]. specialize (IH Hnd).
  destruct x as [c|]; [|exact IH].
  cbn [omap list_omap snd fst]. unfold HandlerStorage.zip_files. cbn [flat_map].
  case_bool_decide; [exact IH|].
  cbn [app fmap list_fmap fst]. apply NoDup_cons. split; [|exact IH].
  intros (name & Heq & Hin)%zip_files_paths.
  apply app_inv_head in Heq. injection Heq as ->. done.
Qed.

Lemma members_of_below (root : path) (n : node) (p : path) :
  wf_node n = true -> p ∈ (members_of service root n).*1 ->
  exists q, q <> [] /\ p = root ++ q.
Proof.
  intros Hwf ([p' c] & -> & Hin)%list_elem_of_fmap.
  apply (members_of_spec service n Hwf) in Hin as (q & Hq & -> & _).
  by exists q.
Qed.

(** No two members of an export are stored under the same path. *)
Lemma members_of_nodup (n : node) :
  wf_node n = true -> forall root, NoDup (members_of service root n).*1.
Proof.
  induction n as [c0|es IH] using node_rect_entries; intros Hwf root;
    [constructor|].
  rewrite members_of_entries, fmap_app.
  simpl in Hwf. apply andb_prop in Hwf as [Hnd Hall].
  apply bool_decide_eq_true in Hnd. rewrite forallb_forall in Hall.
  assert (forall e, e ∈ es -> wf_node e.2 = true) as Hwfs.
  { intros e He. apply Hall. by apply list_elem_of_In. }
  rewrite Forall_forall in IH.
  apply NoDup_app. split; [by apply zip_files_nodup|]. split.
  - intros p (name & -> & _)%zip_files_paths
             ([p' c] & Hp & Hin)%list_elem_of_fmap.
    apply elem_of_flat_map in Hin as (e & He & Hin). simpl in Hp.
    destruct (members_of_below (root ++ [e.1]) e.2 p') as (q & Hq & Hp').
    { by apply Hwfs. }
    { apply list_elem_of_fmap. by exists (p', c). }
    rewrite Hp', <- app_assoc in Hp. apply app_inv_head in Hp.
    injection Hp as _ Hq'. by destruct q.
  - clear Hall. induction es as [|e es IHes]; [constructor|].
    apply NoDup_cons in Hnd as [Hn Hnd]. cbn [flat_map]. rewrite fmap_app.
    apply NoDup_app. split; [|split].
    + apply IH; [apply list_elem_of_here | apply Hwfs, list_elem_of_here].
    + intros p Hp ([p' c] & Heq & Hin)%list_elem_of_fmap.
      apply elem_of_flat_map in Hin as (e' & He' & Hin). simpl in Heq. subst p'.
      destruct (members_of_below (root ++ [e.1]) e.2 p) as (q & Hq & Hpq);
        [apply Hwfs, list_elem_of_here | done |].
      destruct (members_of_below (root ++ [e'.1]) e'.2 p) as (q' & Hq' & Hpq').
      { apply Hwfs. by apply list_elem_of_further. }
      { apply list_elem_of_fmap. by exists (p, c). }
      rewrite Hpq', <- !app_assoc in Hpq. apply app_inv_head in Hpq.
      injection Hpq as Hname _. apply Hn. rewrite <- Hname.
      apply list_elem_of_fmap. by exists e'.
    + apply IHes; [|done|].
      * intros x Hx. apply IH. by apply list_elem_of_further.
      * intros x Hx. apply Hwfs. by apply list_elem_of_further.
Qed.

End Members.

End MembersMore.

(** ** Further properties of [HandlerStorage] *)

Module HandlerMore.
Import Storage HandlerStorage Spec Vocabulary.

Lemma update_connection_args_found (self : t) (a : pyobj) (w : world)
    (rec : Integration.t) :
  integrations w !! integration_id self = Some rec ->
  update_connection_args self a w =
    (Ok tt, with_integrations
              (<[integration_id self := Integration.mk a]> (integrations w)) w).
Proof.
  intros Hrec. unfold update_connection_args. run_method. by rewrite Hrec.
Qed.

(** X11.  [get_connection_args] raises [AttributeError] when the integration
    has no row, and returns the [data] of the row otherwise, changing
    nothing.  After [update_connection_args] it returns the value that was
    given; of two updates in a row only the second counts; the rows of other
    integrations stay as they were. *)
Theorem connection_args_last_wins (self : t) (w : world) (a1 a2 : pyobj) :
  (integrations w !! integration_id self = None ->
     get_connection_args self w = (Raise AttributeError, w))
  /\ (forall rec, integrations w !! integration_id self = Some rec ->
        get_connection_args self w = (Ok (Integration.data rec), w)
        /\ (get_connection_args self (update_connection_args self a1 w).2).1 = Ok a1
        /\ update_connection_args self a2 (update_connection_args self a1 w).2
           = update_connection_args self a2 w
        /\ (forall id, id <> integration_id self ->
              integrations (update_connection_args self a1 w).2 !! id
              = integrations w !! id)).
Proof.
  split.
  - intros Hrec. unfold get_connection_args. run_method. by rewrite Hrec.
  - intros rec Hrec. split; [|split; [|split]].
    + unfold get_connection_args. run_method. by rewrite Hrec.
    + rewrite (update_connection_args_found _ _ _ _ Hrec).
      unfold get_connection_args. run_method. by rewrite lookup_insert_eq.
    + rewrite (update_connection_args_found _ a1 _ _ Hrec),
              (update_connection_args_found _ a2 _ _ Hrec). cbn [snd].
      erewrite update_connection_args_found;
        last by (simpl; rewrite lookup_insert_eq).
      unfold with_integrations. simpl. by rewrite insert_insert_eq.
    + intros id Hid. rewrite (update_connection_args_found _ _ _ _ Hrec).
      simpl. by rewrite lookup_insert_ne.
Qed.

Lemma connection_args_last_wins_witness :
  (get_connection_args (mk 1 false)
     (update_connection_args (mk 1 false) (PDict {["port" := PInt 5432]})
        connected_world).2).1
  = Ok (PDict {["port" := PInt 5432]})
  /\ get_connection_args (mk 2 false) connected_world
     = (Raise AttributeError, connected_world).
Proof.
  split.
  - destruct (connection_args_last_wins (mk 1 false) connected_world
                (PDict {["port" := PInt 5432]}) PNone) as [_ H].
    destruct (H _ eq_refl) as (_ & Hget & _). exact Hget.
  - destruct (connection_args_last_wins (mk 2 false) connected_world PNone PNone)
      as [H _].
    exact (H eq_refl).
Defined.

Section Archive.
Variable service : list string.

Lemma is_empty_result (self : t) (w : world) (b : bool) :
  (is_empty service self w).1 = Ok b -> is_empty_loop service (folder w) = b.
Proof. unfold is_empty. run_method. by intros [= ->]. Qed.

Lemma export_files_none (self : t) (w : world) :
  is_empty_loop service (folder w) = true ->
  export_files service self w = (Ok None, w).
Proof. intros He. unfold export_files, is_empty. run_method. by rewrite He. Qed.

Lemma export_files_some (self : t) (w w' : world) (ar : archive) :
  export_files service self w = (Ok (Some ar), w') ->
  is_empty_loop service (folder w) = false
  /\ ar = members_of service [] (Dir (folder w)).
Proof.
  intros Hex. destruct (is_empty_loop service (folder w)) eqn:He.
  - by rewrite (export_files_none self w He) in Hex.
  - rewrite (HandlerFacts.export_files_walks service self w He) in Hex.
    by injection Hex as <- _.
Qed.

(** X12.  On an empty folder [export_files] returns [None] without calling
    the backend or changing anything, and [import_files] of that [None]
    raises [TypeError] after its pull, without extracting or pushing: an
    empty folder does not make the round trip. *)
Theorem export_import_empty_folder (self : t) (w : world) :
  (is_empty service self w).1 = Ok true ->
  export_files service self w = (Ok None, w)
  /\ import_files self None w
     = (Raise TypeError, with_calls (calls w ++ [PullPath ""]) w)
  /\ (import_files self None (export_files service self w).2).1 = Raise TypeError
  /\ pushes (import_files self None w).2 = pushes w.
Proof.
  intros He%is_empty_result.
  pose proof (export_files_none self w He) as Hex.
  split; [done|]. split; [done|]. split; [by rewrite Hex|].
  apply (HandlerFacts.pushes_calls_app _ _ [PullPath ""]); [done|].
  by repeat constructor.
Qed.

(** X13.  [export_files] only reads: the tables, the JSON values and the
    folder are as before, and no push is made.  It returns [None] exactly
    when [is_empty] holds, and then the backend is not called; otherwise the
    backend receives the one pull of the name [""]. *)
Theorem export_files_reads_only (self : t) (w : world) :
  let r := export_files service self w in
  predictors r.2 = predictors w
  /\ integrations r.2 = integrations w
  /\ jsons r.2 = jsons w
  /\ folder r.2 = folder w
  /\ pushes r.2 = pushes w
  /\ (r.1 = Ok None <-> (is_empty service self w).1 = Ok true)
  /\ new_calls w r.2 =
       if is_empty_loop service (folder w) then [] else [PullPath ""].
Proof.
  unfold export_files, is_empty, folder_get, fs_pull_path.
  unfold mbind, mret, M_bind, M_ret, bind, ret, log, get_world, modify.
  destruct (is_empty_loop service (folder w)) eqn:He; cbn [fst snd].
  - repeat split; try done.
    apply HandlerFacts.new_calls_app. by rewrite app_nil_r.
  - repeat split; try done.
    + by apply (HandlerFacts.pushes_calls_app _ _ [PullPath ""]);
        [|repeat constructor].
    + by apply HandlerFacts.new_calls_app.
Qed.

(** X14.  A folder that is not empty but holds no file under a name that is
    not reserved (directories alone, or reserved names below them) is
    exported as an archive without members; importing such an archive
    succeeds and leaves every folder as it was, so the directories are not
    carried over. *)
Theorem export_without_files (self : t) (w : world) :
  wf (folder w) = true ->
  (is_empty service self w).1 = Ok false ->
  (forall p c, read_file p (folder w) = Some c -> basename p ∈ service) ->
  (export_files service self w).1 = Ok (Some [])
  /\ forall w0, (import_files self (Some []) w0).1 = Ok tt
                /\ folder (import_files self (Some []) w0).2 = folder w0.
Proof.
  intros Hwf He%is_empty_result Hfiles.
  split.
  - rewrite (HandlerFacts.export_files_walks service self w He). cbn [fst].
    destruct (members_of service [] (Dir (folder w))) as [|[p c] ar] eqn:Har;
      [done|].
    assert ((p, c) ∈ members_of service [] (Dir (folder w))) as Hin
      by (rewrite Har; apply list_elem_of_here).
    apply (HandlerFacts.members_of_folder service _ _ _ Hwf) in Hin as [Hp Hs].
    destruct (Hs (Hfiles p c Hp)).
  - intros w0.
    destruct (HandlerFacts.import_files_extracts self [] w0 (folder w0) eq_refl)
      as (w' & -> & Hf).
    by split.
Qed.

End Archive.

Lemma export_import_empty_folder_witness :
  export_files sample_service (mk 1 false) locked_world = (Ok None, locked_world)
  /\ (import_files (mk 1 false) None
        (export_files sample_service (mk 1 false) locked_world).2).1
     = Raise TypeError.
Proof.
  destruct (export_import_empty_folder sample_service (mk 1 false) locked_world
              eq_refl) as (Hex & _ & Himp & _).
  split; [exact Hex | exact Himp].
Defined.

Lemma export_without_files_witness :
  (export_files sample_service (mk 1 false) nested_world).1 = Ok (Some []).
Proof.
  apply (export_without_files sample_service (mk 1 false) nested_world);
    [reflexivity | reflexivity |].
  intros p c. unfold nested_world, read_file. simpl.
  destruct p as [|n [|m [|k r]]]; simpl; try done.
  - destruct (decide ("cache" = n)); done.
  - destruct (decide ("cache" = n)); [|done]. simpl.
    destruct (decide ("dir.lock" = m)) as [<-|]; [|done].
    intros _. apply list_elem_of_here.
  - destruct (decide ("cache" = n)); [|done]. simpl.
    destruct (decide ("dir.lock" = m)); done.
Defined.

(** X15.  For [None], or a zip file read without error into members of
    ordinary names, [import_files] leaves the tables and the JSON values alone
    and always pulls the name [""] first.  It pushes, the name [""] and once,
    exactly when the extraction was complete and the instance is not
    temporal; when it raises nothing is pushed, and [None] raises
    [TypeError]. *)
Theorem import_files_pushes_on_success (self : t) (content : option archive)
    (w : world) :
  (forall members, content = Some members -> plain_members members = true) ->
  let r := import_files self content w in
  predictors r.2 = predictors w
  /\ integrations r.2 = integrations w
  /\ jsons r.2 = jsons w
  /\ (r.1 = Ok tt ->
      new_calls w r.2 =
        PullPath "" :: (if is_temporal self then [] else [PushPath ""]))
  /\ (r.1 <> Ok tt -> new_calls w r.2 = [PullPath ""] /\ pushes r.2 = pushes w)
  /\ (content = None -> r.1 = Raise TypeError).
Proof.
  intros _.
  unfold import_files, folder_get, folder_sync, fs_pull_path, fs_push_path.
  unfold mbind, mret, M_bind, M_ret, bind, ret, raise, log, get_world, modify.
  destruct content as [members|]; cbn beta iota zeta.
  - match goal with
    | |- context [extractall ?target ?ms ?es] =>
        destruct (extractall target ms es) as [[] es']
    end; cbn beta iota zeta.
    + destruct (is_temporal self); cbn [fst snd]; repeat split; try done.
      * intros _. by apply HandlerFacts.new_calls_app.
      * intros _. apply HandlerFacts.new_calls_app. simpl.
        by rewrite <- app_assoc.
    + cbn [fst snd]. repeat split; try done.
      * by apply HandlerFacts.new_calls_app.
      * by apply (HandlerFacts.pushes_calls_app _ _ [PullPath ""]);
          [|repeat constructor].
  - cbn [fst snd]. repeat split; try done.
    + by apply HandlerFacts.new_calls_app.
    + by apply (HandlerFacts.pushes_calls_app _ _ [PullPath ""]);
        [|repeat constructor].
Qed.

Lemma import_files_pushes_on_success_witness :
  new_calls handler_world
    (import_files (mk 1 false) (Some patch_archive) handler_world).2
    = [PullPath ""; PushPath ""]
  /\ new_calls handler_world
       (import_files (mk 1 true) (Some patch_archive) handler_world).2
     = [PullPath ""]
  /\ new_calls handler_world
       (import_files (mk 1 false) (Some clashing_archive) handler_world).2
     = [PullPath ""].
Proof.
  split; [|split].
  - destruct (import_files_pushes_on_success (mk 1 false) (Some patch_archive)
                handler_world) as (_ & _ & _ & H & _).
    { by intros members [= <-]. }
    exact (H eq_refl).
  - destruct (import_files_pushes_on_success (mk 1 true) (Some patch_archive)
                handler_world) as (_ & _ & _ & H & _).
    { by intros members [= <-]. }
    exact (H eq_refl).
  - destruct (import_files_pushes_on_success (mk 1 false) (Some clashing_archive)
                handler_world) as (_ & _ & _ & _ & H & _).
    { by intros members [= <-]. }
    apply H. discriminate.
Defined.

Lemma import_files_done (self : t) (members : archive) (w w' : world) :
  import_files self (Some members) w = (Ok tt, w') ->
  extractall [] members (folder w) = (true, folder w').
Proof.
  unfold import_files, folder_get, folder_sync, fs_pull_path, fs_push_path.
  unfold mbind, mret, M_bind, M_ret, bind, ret, raise, log, get_world, modify.
  change (fs_get_path (Name.convert_name "")) with (@nil string).
  cbn beta iota zeta. cbn [folder with_calls].
  destruct (extractall [] members (folder w)) as [[] es']; cbn beta iota zeta.
  - destruct (is_temporal self); intros [= <-]; done.
  - done.
Qed.


(** X16.  For a zip file read without error into members of ordinary names:
    after an [import_files] that succeeded, a path under which the archive
    stores a member holds the content of the last such member, and every
    other path reads as before the import: files are overwritten or added,
    none is removed.  Names stay unique in every directory. *)
Theorem import_files_last_member_wins (self : t) (members : archive)
    (w w' : world) :
  plain_members members = true ->
  import_files self (Some members) w = (Ok tt, w') ->
  (forall q, read_file q (folder w') =
             match last_member q members with
             | Some c => Some c
             | None => read_file q (folder w)
             end)
  /\ (wf (folder w) = true -> wf (folder w') = true).
Proof.
  intros _ Himp%import_files_done. split.
  - by apply FsMore.extractall_read.
  - intros Hwf. by apply (FsMore.extractall_wf members (folder w) _ true).
Qed.

Lemma import_files_last_member_wins_witness :
  read_file ["model.pkl"]
    (folder (import_files (mk 1 true) (Some patch_archive) handler_world).2)
    = Some [Byte.x32]
  /\ read_file ["weights"; "part0"]
       (folder (import_files (mk 1 true) (Some patch_archive) handler_world).2)
     = Some [Byte.x77].
Proof.
  destruct (import_files_last_member_wins (mk 1 true) patch_archive handler_world
              (import_files (mk 1 true) (Some patch_archive) handler_world).2
              eq_refl eq_refl) as [Hread _].
  split; by rewrite Hread.
Defined.



(** X18.  The archive [export_files] returns stores no two members under the
    same path. *)
Theorem export_files_distinct_paths (service : list string) (self : t)
    (w w' : world) (ar : archive) :
  wf (folder w) = true ->
  export_files service self w = (Ok (Some ar), w') ->
  NoDup ar.*1.
Proof.
  intros Hwf [_ ->]%export_files_some.
  by apply MembersMore.members_of_nodup.
Qed.

Lemma export_files_distinct_paths_witness :
  NoDup (members_of sample_service [] (Dir sample_folder)).*1.
Proof.
  apply (export_files_distinct_paths sample_service (mk 1 false) handler_world
           (export_files sample_service (mk 1 false) handler_world).2);
    reflexivity.
Defined.

(** X19.  When the archive of an export has a member, the folder its import
    makes out of an empty folder is not empty for [is_empty]. *)
Theorem imported_folder_not_empty (service : list string) (self : t)
    (w w1 w0 : world) (ar : archive) :
  wf (folder w) = true ->
  export_files service self w = (Ok (Some ar), w1) ->
  ar <> [] ->
  folder w0 = [] ->
  (import_files self (Some ar) w0).1 = Ok tt
  /\ (is_empty service self (import_files self (Some ar) w0).2).1 = Ok false.
Proof.
  intros Hwf [_ ->]%export_files_some Hne Hw0.
  pose proof (fun p c => HandlerFacts.members_of_folder service (folder w) p c Hwf)
    as Har.
  destruct (FsFacts.extractall_covered (members_of service [] (Dir (folder w)))
              [] (folder w) FsFacts.wf_nil (FsFacts.covers_empty _))
    as (es & Hext & _ & _ & Hread).
  { intros p c Hin. by apply Har in Hin as [? _]. }
  rewrite <- Hw0 in Hext.
  destruct (HandlerFacts.import_files_extracts self _ w0 es Hext)
    as (w2 & Himp & Hfolder).
  rewrite Himp. split; [done|]. unfold is_empty. run_method. f_equal.
  rewrite Hfolder.
  destruct (is_empty_loop service es) eqn:Hes; [|done]. exfalso.
  apply HandlerFacts.is_empty_loop_true in Hes.
  assert (exists pc, pc ∈ members_of service [] (Dir (folder w))) as [[p c] Hin].
  { destruct (members_of service [] (Dir (folder w))) as [|pc ar]; [done|].
    exists pc. apply list_elem_of_here. }
  assert (read_file p es = Some c) as Hp by (apply Hread; by left).
  apply Har in Hin as [_ Hs].
  apply FsFacts.read_file_resolve in Hp.
  destruct p as [|name rest]; [done|].
  rewrite FsFacts.resolve_cons in Hp.
  destruct (find_entry name es) as [x|] eqn:Hx; [|done].
  apply FsFacts.find_entry_elem in Hx.
  rewrite Forall_forall in Hes. destruct (Hes _ Hx) as [Hfile Hin]. simpl in *.
  destruct x as [cx|sub]; [|done].
  destruct rest as [|r0 rs]; [|done].
  by apply Hs.
Qed.

Lemma imported_folder_not_empty_witness :
  (is_empty sample_service (mk 1 false)
     (import_files (mk 1 false)
        (Some (members_of sample_service [] (Dir sample_folder)))
        sample_world).2).1 = Ok false.
Proof.
  apply (imported_folder_not_empty sample_service (mk 1 false) handler_world
           (export_files sample_service (mk 1 false) handler_world).2
           sample_world
           (members_of sample_service [] (Dir sample_folder)));
    try reflexivity.
  discriminate.
Defined.

End HandlerMore.

(** ** Properties of the model names *)

Module OpenAIFacts.
Import OpenAIConstants.

(** X20.  The four families of model names have no name in common and none
    twice, so [ALL_MODELS] holds their 38 names; it holds every model that can
    be fine-tuned, the legacy ones too. *)
Theorem all_models_distinct :
  NoDup (CHAT_MODELS ++ COMPLETION_MODELS ++ COMPLETION_LEGACY_MODELS
         ++ EMBEDDING_MODELS)
  /\ size ALL_MODELS = 38
  /\ Forall (fun model => model ∈ ALL_MODELS)
            (FINETUNING_MODELS ++ FINETUNING_LEGACY_MODELS).
Proof.
  split; [|split].
  - by refine (bool_decide_eq_true_1 _ _).
  - by vm_compute.
  - by refine (bool_decide_eq_true_1 _ _).
Qed.

End OpenAIFacts.
